(** * mission-control-client: the connection wrapper, embedded and verified

    The repository ships one class, [MissionControlClient], in two states:

    - the current source (package version 1.1.0): authentication through an
      acknowledged [authenticate] request, a registry [_services] of
      reference-counted service subscriptions, a [_stateCache] of the last
      pushed state per service, and the [service] view objects.  It is
      embedded in [Module Client];
    - the older build under [dist/]: an [authenticated] event, the
      [_subscriptions] registry and the two pending queues [_subscribeTo]
      and [_unsubscribeFrom].  It is embedded in [Module Legacy].

    Both are event driven and single threaded.  Every handler and public
    method becomes a function in a small monad that threads the instance
    fields, may throw, and records in order the calls the wrapper makes on
    its collaborators (socket, event bus, logger, user listeners).

    Conventions of the embedding:
    - a JavaScript object that the code enumerates is the association list
      of its own properties in the order [for ... in] walks them: array
      indices first, ascending, then the other names in the order they were
      added; one that is only indexed is a finite map of its own properties;
    - these objects are plain [{}] literals, so besides their own properties
      they have the twelve that [Object.prototype] gives every object
      ([inherited]), whose values are built-ins ([JBuiltin]): [k in o] and
      [o[k]] see them.  The prototype objects themselves lie outside the
      instance: [Object.prototype] is taken as the engine ships it, a write
      that lands on an inherited value (the [listeners] count of a built-in)
      is not followed; the value assigned to the prototype slot [__proto__]
      of the state cache is kept in the map under that key, where the reads
      of the cache look for it;
    - the public methods [on] and [once] and the disposer they return are
      inputs of a run; [action], which sends a request of its own and
      touches no field, is not;
    - the promise returned by [_socketEmit] is an entry of the table
      [promises]; it is settled once by the acknowledgement callback, and the
      reaction attached to it ([await], [.catch]) runs in that same step;
    - user listeners are opaque: calling one is recorded as an effect, and a
      failure of one comes back as an input of its own; the listeners the
      bus delivers an event to return normally;
    - the transport reaches the wrapper in two ways: it emits its own
      lifecycle events ([connect], [disconnect], ...) on the socket, and it
      hands every packet of the server to [socket.onevent]. *)

From Stdlib Require Import ZArith String List Lia DecimalString.
From stdpp Require Import gmap strings list fin_maps.

(** ** JavaScript values *)

(** The values that travel through the wrapper: [undefined], [null],
    booleans, integers of ordinary size, strings, plain objects, and the
    values found on [Object.prototype]: [JBuiltin name] is the built-in
    method [Object.prototype.<name>], or for [__proto__] the prototype
    object itself. *)
#[warnings="-register-all"] Inductive jsval : Type :=
| JUndefined
| JNull
| JBool (b : bool)
| JNum (n : Z)
| JStr (s : string)
| JObj (fields : list (string * jsval))
| JBuiltin (name : string).

(** ToBoolean. *)
Definition truthy (v : jsval) : bool :=
  match v with
  | JUndefined | JNull => false
  | JBool b => b
  | JNum n => negb (n =? 0)%Z
  | JStr s => match s with EmptyString => false | _ => true end
  | JObj _ | JBuiltin _ => true
  end.

(** [v === null]. *)
Definition is_null (v : jsval) : bool :=
  match v with JNull => true | _ => false end.

(** [v == null]: reading a property of such a value throws a TypeError. *)
Definition nullish (v : jsval) : bool :=
  match v with JUndefined | JNull => true | _ => false end.

(** ToString, as used for property keys and template literals. *)
Definition ToString (v : jsval) : string :=
  match v with
  | JUndefined => "undefined"
  | JNull => "null"
  | JBool true => "true"
  | JBool false => "false"
  | JNum n => NilZero.string_of_int (Z.to_int n)
  | JStr s => s
  | JObj _ => "[object Object]"
  | JBuiltin name =>
      if String.eqb name "__proto__" then "[object Object]"
      else if String.eqb name "constructor"
      then "function Object() { [native code] }"
      else "function " +:+ name +:+ "() { [native code] }"
  end.

(** ** Objects used as dictionaries *)

(** The property names of [Object.prototype], which every plain object
    inherits. *)
Definition Object_prototype : list string :=
  ["constructor"; "__defineGetter__"; "__defineSetter__"; "hasOwnProperty";
   "__lookupGetter__"; "__lookupSetter__"; "isPrototypeOf";
   "propertyIsEnumerable"; "toString"; "valueOf"; "__proto__";
   "toLocaleString"].

Definition inherited (k : string) : bool :=
  existsb (String.eqb k) Object_prototype.

(** The array indices: the canonical decimal names of the integers below
    [2^32 - 1]. *)
Definition array_index (k : string) : option N :=
  match NilEmpty.uint_of_string k with
  | Some u =>
      let n := N.of_uint u in
      if String.eqb (NilZero.string_of_uint (N.to_uint n)) k
         && (n <? 4294967295)%N
      then Some n else None
  | None => None
  end.

(** Whether a new key [k] is enumerated before the key [k'] that the
    object already has: an array index comes before every larger index
    and before every other name. *)
Definition enumerated_before (k k' : string) : bool :=
  match array_index k, array_index k' with
  | Some n, Some n' => (n <? n')%N
  | Some _, None => true
  | None, _ => false
  end.

Section Dict.
Context {V : Type}.

(** The own property [k] of [o]; [None] when there is none. *)
Fixpoint dict_get (o : list (string * V)) (k : string) : option V :=
  match o with
  | [] => None
  | (k', v) :: o' => if String.eqb k k' then Some v else dict_get o' k
  end.

(** [o.hasOwnProperty(k)]. *)
Definition dict_has (o : list (string * V)) (k : string) : bool :=
  match dict_get o k with Some _ => true | None => false end.

(** [k in o]: an own property, or one of [Object.prototype]. *)
Definition dict_in (o : list (string * V)) (k : string) : bool :=
  dict_has o k || inherited k.

(** [o[k] = v] for a key the object has: the key keeps its place. *)
Fixpoint dict_update (o : list (string * V)) (k : string) (v : V)
  : list (string * V) :=
  match o with
  | [] => []
  | (k', v') :: o' =>
      if String.eqb k k' then (k', v) :: o' else (k', v') :: dict_update o' k v
  end.

(** [o[k] = v] for a key the object lacks: the key takes its place in the
    enumeration. *)
Fixpoint dict_insert (o : list (string * V)) (k : string) (v : V)
  : list (string * V) :=
  match o with
  | [] => [(k, v)]
  | (k', v') :: o' =>
      if enumerated_before k k' then (k, v) :: o
      else (k', v') :: dict_insert o' k v
  end.

(** [o[k] = v]. *)
Definition dict_set (o : list (string * V)) (k : string) (v : V)
  : list (string * V) :=
  if dict_has o k then dict_update o k v else dict_insert o k v.

(** [delete o[k]]. *)
Fixpoint dict_delete (o : list (string * V)) (k : string)
  : list (string * V) :=
  match o with
  | [] => []
  | (k', v') :: o' =>
      if String.eqb k k' then o' else (k', v') :: dict_delete o' k
  end.

(** The keys in the order [for (const k in o)] visits them. *)
Definition dict_keys (o : list (string * V)) : list string := map fst o.
End Dict.


(** [v.k] for a non-nullish [v] and one of the names the wrapper reads
    from the values it is handed ([service], [state], [error], [type]),
    none of which a prototype defines. *)
Definition field (v : jsval) (k : string) : jsval :=
  match v with
  | JObj fields => default JUndefined (dict_get fields k)
  | _ => JUndefined
  end.

(** ** Effects: the calls the wrapper makes on its collaborators *)

Inductive level : Type := log_debug | log_warn | log_error.

(** A function value handed to the bus or to the socket: the caller's
    listener, or the [errorHandledListener] closure [service] wraps it in. *)
Inductive fn : Type :=
| Listener (id : nat)
| ErrorHandledListener (name : string) (id : nat).

Inductive effect : Type :=
| Log (l : level) (args : list jsval)          (* this.logger.<l>(...args) *)
| SocketEmit (event : string) (data : jsval) (ack : option nat)
                                               (* this.socket.emit(event, data[, callback]) *)
| SocketOn (event : string) (f : fn)           (* this.socket.on(event, f) *)
| SocketRemoveListener (event : string) (f : fn)
| BusOn (event : string) (f : fn)              (* this.eventBus.on(event, f) *)
| BusOnce (event : string) (f : fn)            (* this.eventBus.once(event, f) *)
| BusRemoveListener (event : string) (f : fn)
| BusEmit (event : string) (args : list jsval) (* this.eventBus.emit(event, ...args) *)
| Call (listener : nat) (arg : jsval).         (* listener(arg) *)

(** The events put on the internal bus, in order. *)
Fixpoint bus_events (effs : list effect) : list (string * list jsval) :=
  match effs with
  | [] => []
  | BusEmit event args :: effs' => (event, args) :: bus_events effs'
  | _ :: effs' => bus_events effs'
  end.

(** The requests handed to the transport, in order. *)
Fixpoint requests (effs : list effect) : list (string * jsval) :=
  match effs with
  | [] => []
  | SocketEmit event data _ :: effs' => (event, data) :: requests effs'
  | _ :: effs' => requests effs'
  end.

(** How often the bus event [event] occurs. *)
Definition count_bus (event : string) (effs : list effect) : nat :=
  length (filter (λ e, String.eqb (fst e) event = true) (bus_events effs)).

(** How often request [event] was sent with payload [{ <key>: name }]. *)
Definition is_request (event key name : string) (r : string * jsval) : bool :=
  match r with
  | (event', JObj [(key', JStr name')]) =>
      String.eqb event' event && String.eqb key' key && String.eqb name' name
  | _ => false
  end.

Definition count_requests (event key name : string) (effs : list effect) : nat :=
  length (filter (λ r, is_request event key name r = true) (requests effs)).

(** The requests of one kind among the effects. *)
Definition requests_named (event : string) (effs : list effect)
  : list (string * jsval) :=
  filter (λ r, String.eqb (fst r) event = true) (requests effs).

(** ** The handler monad: instance fields, exceptions, effects *)

Inductive outcome (A : Type) : Type :=
| Return (a : A)
| Throw (e : jsval).
Arguments Return {A} a.
Arguments Throw {A} e.

Definition handler (S A : Type) : Type := S → outcome A * S * list effect.

Section Handler.
Context {S : Type}.

Definition ret {A} (a : A) : handler S A := λ s, (Return a, s, []).

Definition bind {A B} (m : handler S A) (k : A → handler S B) : handler S B :=
  λ s, match m s with
       | (Return a, s1, effs1) =>
           match k a s1 with (r, s2, effs2) => (r, s2, effs1 ++ effs2) end
       | (Throw e, s1, effs1) => (Throw e, s1, effs1)
       end.

Definition this : handler S S := λ s, (Return s, s, []).
Definition assign (f : S → S) : handler S unit := λ s, (Return tt, f s, []).
Definition perform (e : effect) : handler S unit := λ s, (Return tt, s, [e]).
Definition throw {A} (e : jsval) : handler S A := λ s, (Throw e, s, []).

(** [try { m } catch (e) { h e }] *)
Definition try_catch {A} (m : handler S A) (h : jsval → handler S A)
  : handler S A :=
  λ s, match m s with
       | (Return a, s1, effs1) => (Return a, s1, effs1)
       | (Throw e, s1, effs1) =>
           match h e s1 with (r, s2, effs2) => (r, s2, effs1 ++ effs2) end
       end.

(** [if (c) { m }] *)
Definition when (c : bool) (m : handler S unit) : handler S unit :=
  if c then m else ret tt.

(** [for (const k of ks) { body k }] *)
Fixpoint for_each {K} (ks : list K) (body : K → handler S unit)
  : handler S unit :=
  match ks with
  | [] => ret tt
  | k :: ks' => bind (body k) (λ _, for_each ks' body)
  end.
End Handler.

Declare Scope handler_scope.
Delimit Scope handler_scope with handler.
Notation "x ← y ; z" := (bind y (λ x, z)) (only parsing) : handler_scope.
Notation "x ;; z" := (bind x (λ _, z)) (only parsing) : handler_scope.

(** The state and the effects a computation leaves behind. *)
Definition state_of {S A} (r : outcome A * S * list effect) : S := snd (fst r).
Definition effects_of {S A} (r : outcome A * S * list effect) : list effect := snd r.

Definition TypeError : jsval := JStr "TypeError".

Definition arg0 (args : list jsval) : jsval := hd JUndefined args.

(** [names.includes(v)] for an array of string literals. *)
Definition includes (names : list string) (v : jsval) : bool :=
  match v with
  | JStr s => existsb (String.eqb s) names
  | _ => false
  end.

(** * The current source *)

Module Client.

Inductive SOCKET_ERROR : Type :=
| GENERAL | TIMEOUT | NO_ATTEMPTS_LEFT | AUTH_FAILED | AUTH_TIMEOUT.

Definition SOCKET_ERROR_value (e : SOCKET_ERROR) : jsval :=
  JStr match e with
       | GENERAL => "GENERAL"
       | TIMEOUT => "TIMEOUT"
       | NO_ATTEMPTS_LEFT => "NO_ATTEMPTS_LEFT"
       | AUTH_FAILED => "AUTH_FAILED"
       | AUTH_TIMEOUT => "AUTH_TIMEOUT"
       end.

Inductive DISCONNECT_REASON : Type :=
| UNKNOWN | SERVER_DISCONNECT | CLIENT_DISCONNECT | PING_TIMEOUT.

Definition DISCONNECT_REASON_value (r : DISCONNECT_REASON) : jsval :=
  JStr match r with
       | UNKNOWN => "UNKNOWN"
       | SERVER_DISCONNECT => "SERVER_DISCONNECT"
       | CLIENT_DISCONNECT => "CLIENT_DISCONNECT"
       | PING_TIMEOUT => "PING_TIMEOUT"
       end.

(** What waits on a promise of [_socketEmit]. *)
Inductive reaction : Type :=
| Unhandled
| AwaitAuthenticate    (* the connect handler, suspended at its [await] *)
| CatchReportError.    (* [.catch(this.reportError)] *)

(** The instance fields.  [_services] maps a name to its [listeners]
    count.  [socket_ready] is the property [this.socket.ready], which the
    disposer of [service] reads.  [promises] and [next_promise] hold the
    pending promises of [_socketEmit]. *)
Record client : Type := {
  authToken : string;
  ready : bool;
  _services : list (string * Z);
  _stateCache : gmap string jsval;
  socket_ready : jsval;
  promises : gmap nat reaction;
  next_promise : nat
}.

Definition set_ready (b : bool) (s : client) : client :=
  {| authToken := authToken s; ready := b; _services := _services s;
     _stateCache := _stateCache s; socket_ready := socket_ready s;
     promises := promises s; next_promise := next_promise s |}.

Definition set_services (o : list (string * Z)) (s : client) : client :=
  {| authToken := authToken s; ready := ready s; _services := o;
     _stateCache := _stateCache s; socket_ready := socket_ready s;
     promises := promises s; next_promise := next_promise s |}.

Definition set_stateCache (c : gmap string jsval) (s : client) : client :=
  {| authToken := authToken s; ready := ready s; _services := _services s;
     _stateCache := c; socket_ready := socket_ready s;
     promises := promises s; next_promise := next_promise s |}.

Definition set_promises (ps : gmap nat reaction) (n : nat) (s : client) : client :=
  {| authToken := authToken s; ready := ready s; _services := _services s;
     _stateCache := _stateCache s; socket_ready := socket_ready s;
     promises := ps; next_promise := n |}.

(** [new MissionControlClient(url, authToken)].  A socket made by
    socket.io-client has no property [ready], and nothing in the class
    assigns one. *)
Definition constructor (url authToken : string) : outcome client :=
  match url, authToken with
  | EmptyString, _ => Throw (JStr "You need to pass an URL.")
  | _, EmptyString => Throw (JStr "You need to pass an Auth Token.")
  | _, _ =>
      Return {| authToken := authToken; ready := false; _services := [];
                _stateCache := ∅; socket_ready := JUndefined;
                promises := ∅; next_promise := 0 |}
  end.

(** What an object finds under a name it has no property for, [proto]
    being the value last assigned to its prototype slot: an object put
    there is searched first, and [null] there ends the search. *)
Definition prototype_value (proto : option jsval) (name : string) : jsval :=
  match proto with
  | Some JNull => JUndefined
  | Some (JObj fields) =>
      match dict_get fields name with
      | Some v => v
      | None => if inherited name then JBuiltin name else JUndefined
      end
  | _ => if inherited name then JBuiltin name else JUndefined
  end.

(** [this._stateCache[name]]: the own property, or else what the
    prototype has under the name. *)
Definition cached (s : client) (name : string) : jsval :=
  match _stateCache s !! name with
  | Some state => state
  | None => prototype_value (_stateCache s !! "__proto__") name
  end.

Local Open Scope handler_scope.

(** [_socketEmit(event, data)]: send with an acknowledgement callback and
    hand back the promise that callback settles. *)
Definition _socketEmit (event : string) (data : jsval) : handler client nat :=
  s ← this;
  let p := next_promise s in
  assign (set_promises (<[p := Unhandled]> (promises s)) (S p)) ;;
  perform (SocketEmit event data (Some p)) ;;
  ret p.

(** Attach a reaction to promise [p]. *)
Definition react (p : nat) (r : reaction) : handler client unit :=
  assign (λ s, set_promises (<[p := r]> (promises s)) (next_promise s) s).

Definition reportError (error : jsval) : handler client unit :=
  perform (Log log_error [JStr "error reported"; error]) ;;
  perform (BusEmit "error" [SOCKET_ERROR_value GENERAL; error]).

(** The switch of the disconnect handler. *)
Definition disconnectReason (reason : jsval) : DISCONNECT_REASON :=
  match reason with
  | JStr r =>
      if String.eqb r "io server disconnect" then SERVER_DISCONNECT
      else if String.eqb r "io client disconnect" then CLIENT_DISCONNECT
      else if String.eqb r "ping timeout" then CLIENT_DISCONNECT
      else UNKNOWN
  | _ => UNKNOWN
  end.

(** The connect handler up to its [await]. *)
Definition connect_handler : handler client unit :=
  assign (set_ready false) ;;
  perform (Log log_debug [JStr "auth:start"]) ;;
  s ← this;
  p ← _socketEmit "authenticate" (JObj [("token", JStr (authToken s))]);
  react p AwaitAuthenticate.

(** Its [catch] block. *)
Definition connect_handler_catch (e : jsval) : handler client unit :=
  assign (set_ready false) ;;
  perform (BusEmit "error" [SOCKET_ERROR_value AUTH_FAILED; e]).

(** The rest of its [try] block, run when the promise resolves. *)
Definition connect_handler_resume (response : jsval) : handler client unit :=
  try_catch
    (assign (set_ready true) ;;
     perform (Log log_debug [JStr "auth:complete"; response]) ;;
     perform (Log log_debug [JStr "ready"]) ;;
     s ← this;
     for_each (dict_keys (_services s)) (λ service,
       perform (Log log_debug [JStr "subscribe to service:"; JStr service]) ;;
       p ← _socketEmit "subscribe" (JObj [("service", JStr service)]);
       react p CatchReportError) ;;
     perform (BusEmit "connect" []))
    connect_handler_catch.

(** The sync handler; its parameter is destructured before the [try].
    [this._services[serviceName]] is an object, hence truthy, for an own
    property and for an inherited one alike. *)
Definition sync_handler (payload : jsval) : handler client unit :=
  if nullish payload then throw TypeError else
  let serviceName := field payload "service" in
  let state := field payload "state" in
  try_catch
    (perform (Log log_debug [JStr "sync â€“ service:"; serviceName;
                             JStr "state:"; state]) ;;
     s ← this;
     if negb (dict_in (_services s) (ToString serviceName)) then
       perform (Log log_warn [JStr "received sync update for unsubscribed service";
                              serviceName; state])
     else
       assign (λ s, set_stateCache
                      (<[ToString serviceName := state]> (_stateCache s)) s) ;;
       perform (BusEmit ("sync:" +:+ ToString serviceName) [state]))
    reportError.

(** The handlers [_setupErrorHandlers] installs, by event name. *)
Definition _setupErrorHandlers (event : string) (args : list jsval)
  : handler client unit :=
  if String.eqb event "connect_error" then
    assign (set_ready false) ;;
    perform (BusEmit "error" [SOCKET_ERROR_value GENERAL; arg0 args])
  else if String.eqb event "connect_timeout" then
    assign (set_ready false) ;;
    perform (BusEmit "error" [SOCKET_ERROR_value TIMEOUT; arg0 args])
  else if String.eqb event "authentication_timeout" then
    if nullish (arg0 args) then throw TypeError else
    assign (set_ready false) ;;
    perform (BusEmit "error" [SOCKET_ERROR_value AUTH_TIMEOUT;
                              field (arg0 args) "error"])
  else if String.eqb event "reconnect_failed" then
    assign (set_ready false) ;;
    perform (BusEmit "error" [SOCKET_ERROR_value NO_ATTEMPTS_LEFT])
  else ret tt.

(** The handlers [_setupSocketHandlers] installs with [this.socket.on],
    by event name: what runs when the socket emits [event] with [args]. *)
Definition _setupSocketHandlers (event : string) (args : list jsval)
  : handler client unit :=
  if String.eqb event "*" then
    if negb (includes ["connect"; "disconnect"; "reconnecting"; "error"]
                      (arg0 args))
    then perform (BusEmit ("internal:" +:+ ToString (arg0 args)) (tl args))
    else ret tt
  else if String.eqb event "connect" then connect_handler
  else if String.eqb event "disconnect" then
    let disconnectReason := disconnectReason (arg0 args) in
    assign (set_ready false) ;;
    perform (BusEmit "disconnect" [DISCONNECT_REASON_value disconnectReason])
  else if String.eqb event "reconnect_attempt" then
    assign (set_ready false) ;;
    perform (BusEmit "reconnecting" [arg0 args])
  else if String.eqb event "sync" then sync_handler (arg0 args)
  else _setupErrorHandlers event args.

(** The replacement [_setupSocketHandlers] installs for [socket.onevent]:
    a packet [[event, ...args]] is dispatched under its own name and then
    once more under the name [*]. *)
Definition onevent (event : string) (args : list jsval) : handler client unit :=
  _setupSocketHandlers event args ;;
  _setupSocketHandlers "*" (JStr event :: args).

(** Settling promise [p]: its reaction runs; a promise settles once. *)
Definition settle (p : nat) (result : jsval + jsval) : handler client unit :=
  s ← this;
  match promises s !! p with
  | None => ret tt
  | Some r =>
      assign (λ s, set_promises (delete p (promises s)) (next_promise s) s) ;;
      match r, result with
      | AwaitAuthenticate, inl response => connect_handler_resume response
      | AwaitAuthenticate, inr e => connect_handler_catch e
      | CatchReportError, inr e => reportError e
      | _, _ => ret tt
      end
  end.

(** The acknowledgement callback [_socketEmit] passes to [socket.emit]. *)
Definition ack_callback (p : nat) (response : jsval) : handler client unit :=
  if nullish response then throw TypeError
  else if truthy (field response "error")
       then settle p (inr (field response "error"))
       else settle p (inl response).

(** The [catch] block of [errorHandledListener]. *)
Definition errorHandledListener_catch (name : string) (e : jsval)
  : handler client unit :=
  perform (Log log_error [JStr ("error in service state handler " +:+ name); e]) ;;
  reportError e.

(** [service(name, listener)], up to the view object it returns. *)
Definition service (name : string) (listener : nat) : handler client unit :=
  perform (BusOn ("sync:" +:+ name) (ErrorHandledListener name listener)) ;;
  s ← this;
  let staleState := cached s name in
  when (truthy staleState)
    (perform (Log log_debug [JStr "found stale state for service"; JStr name]) ;;
     perform (Call listener staleState)) ;;
  s ← this;
  if dict_in (_services s) name then
    perform (Log log_debug [JStr "already subscribed to sync from"; JStr name]) ;;
    match dict_get (_services s) name with
    | Some listeners =>
        assign (set_services (dict_set (_services s) name (listeners + 1)%Z))
    | None => ret tt  (* the count goes to the inherited value *)
    end
  else
    assign (set_services (dict_set (_services s) name 1%Z)) ;;
    when (ready s)
      (perform (Log log_debug [JStr "subscribe to service:"; JStr name]) ;;
       p ← _socketEmit "subscribe" (JObj [("service", JStr name)]);
       react p CatchReportError).

(** The [unsubscribe] closure of the view object.  Without an own entry
    [this._services[name]] is [undefined], whose property cannot be read,
    or an inherited value, whose [listeners] count is NaN and stays so. *)
Definition unsubscribe (name : string) (listener : nat) : handler client unit :=
  perform (Log log_debug [JStr "listener unsubscribed from service"; JStr name]) ;;
  perform (BusRemoveListener ("sync:" +:+ name) (Listener listener)) ;;
  s ← this;
  match dict_get (_services s) name with
  | None => if inherited name then ret tt else throw TypeError
  | Some listeners =>
      assign (set_services (dict_set (_services s) name (listeners - 1)%Z)) ;;
      when (listeners - 1 <=? 0)%Z
        (perform (Log log_debug [JStr "removing service from sync"; JStr name]) ;;
         assign (λ s, set_services (dict_delete (_services s) name) s) ;;
         s ← this;
         when (truthy (socket_ready s))
           (p ← _socketEmit "unsubscribe" (JObj [("service", JStr name)]);
            react p CatchReportError))
  end.

(** The getters of the view object, read against the live instance. *)
Definition view_ready (s : client) (name : string) : bool :=
  negb (is_null (cached s name)).

Definition view_state (s : client) (name : string) : jsval :=
  if truthy (cached s name) then cached s name else JNull.

(** [on(event, listener)] and [once(event, listener)], up to the disposer
    they return, and that disposer. *)
Definition on (event : string) (listener : nat) : handler client unit :=
  perform (BusOn event (Listener listener)).

Definition once (event : string) (listener : nat) : handler client unit :=
  perform (BusOnce event (Listener listener)).

Definition removeListener (event : string) (listener : nat) : handler client unit :=
  perform (BusRemoveListener event (Listener listener)).

(** ** Runs *)

(** What can happen to an instance. *)
Inductive input : Type :=
| Emit (event : string) (args : list jsval)    (* the transport emits on the socket *)
| Packet (event : string) (args : list jsval)  (* a packet of the server reaches onevent *)
| Ack (p : nat) (response : jsval)             (* the server acknowledges request p *)
| CallService (name : string) (listener : nat)
| CallUnsubscribe (name : string) (listener : nat)
| ListenerFailed (name : string) (e : jsval)   (* a listener threw or rejected *)
| CallOn (event : string) (listener : nat)
| CallOnce (event : string) (listener : nat)
| CallRemoveListener (event : string) (listener : nat).
                                               (* the disposer of on or once *)

Definition step (i : input) : handler client unit :=
  match i with
  | Emit event args => _setupSocketHandlers event args
  | Packet event args => onevent event args
  | Ack p response => ack_callback p response
  | CallService name listener => service name listener
  | CallUnsubscribe name listener => unsubscribe name listener
  | ListenerFailed name e => errorHandledListener_catch name e
  | CallOn event listener => on event listener
  | CallOnce event listener => once event listener
  | CallRemoveListener event listener => removeListener event listener
  end.

(** A run: the inputs one after the other, an exception ending only the
    step that threw it. *)
Fixpoint run (inputs : list input) (s : client) : client * list effect :=
  match inputs with
  | [] => (s, [])
  | i :: inputs' =>
      let r := step i s in
      let r' := run inputs' (state_of r) in
      (fst r', effects_of r ++ snd r')
  end.

(** The instance [new MissionControlClient("wss://host", "token123")]. *)
Definition fresh : client :=
  {| authToken := "token123"; ready := false; _services := [];
     _stateCache := ∅; socket_ready := JUndefined;
     promises := ∅; next_promise := 0 |}.

(** The instances a program can reach. *)
Inductive reachable : client → Prop :=
| reachable_new url token s :
    constructor url token = Return s → reachable s
| reachable_step s i :
    reachable s → reachable (state_of (step i s)).

(** The input resolves a pending authentication. *)
Definition authenticates (s : client) (i : input) : bool :=
  match i with
  | Ack p response =>
      negb (nullish response) && negb (truthy (field response "error"))
      && match promises s !! p with
         | Some AwaitAuthenticate => true
         | _ => false
         end
  | _ => false
  end.

(** How many inputs of a run resolve an authentication. *)
Fixpoint authentications (inputs : list input) (s : client) : nat :=
  match inputs with
  | [] => 0
  | i :: inputs' =>
      (if authenticates s i then 1 else 0)
      + authentications inputs' (state_of (step i s))
  end.

(** ** The authentication exchange, seen from outside *)

(** The acknowledgement callbacks of the [authenticate] requests among the
    effects. *)
Fixpoint authenticate_requests (effs : list effect) : list nat :=
  match effs with
  | [] => []
  | SocketEmit event _ (Some p) :: effs' =>
      if String.eqb event "authenticate"
      then p :: authenticate_requests effs' else authenticate_requests effs'
  | _ :: effs' => authenticate_requests effs'
  end.

(** The [authenticate] requests that wait for their answer, once input [i]
    has been handled with effects [effs]: an answer the callback can read
    takes its request off the list, and the requests sent join it. *)
Definition awaiting (pending : list nat) (i : input) (effs : list effect)
  : list nat :=
  match i with
  | Ack p response =>
      if nullish response then pending
      else filter (λ q, negb (Nat.eqb q p)) pending
  | _ => pending
  end ++ authenticate_requests effs.

(** The input is the server's answer, without error, to an [authenticate]
    request that waits for one. *)
Definition answers (pending : list nat) (i : input) : bool :=
  match i with
  | Ack p response =>
      negb (nullish response) && negb (truthy (field response "error"))
      && existsb (Nat.eqb p) pending
  | _ => false
  end.

(** The requests that wait after a run, and how many inputs of the run
    answered one. *)
Fixpoint waiting (inputs : list input) (s : client) (pending : list nat)
  : list nat :=
  match inputs with
  | [] => pending
  | i :: inputs' =>
      let r := step i s in
      waiting inputs' (state_of r) (awaiting pending i (effects_of r))
  end.

Fixpoint answered (inputs : list input) (s : client) (pending : list nat)
  : nat :=
  match inputs with
  | [] => 0
  | i :: inputs' =>
      let r := step i s in
      (if answers pending i then 1 else 0)
      + answered inputs' (state_of r) (awaiting pending i (effects_of r))
  end.

(** ** Notions the properties are stated with *)

(** The four normalized lifecycle names. *)
Definition lifecycle : list string :=
  ["connect"; "disconnect"; "reconnecting"; "error"].

(** The effects and promises of the loop that subscribes again to every
    key of the registry, the next free promise being [p]. *)
Fixpoint resubscribe_effects (keys : list string) (p : nat) : list effect :=
  match keys with
  | [] => []
  | service :: keys' =>
      Log log_debug [JStr "subscribe to service:"; JStr service]
      :: SocketEmit "subscribe" (JObj [("service", JStr service)]) (Some p)
      :: resubscribe_effects keys' (S p)
  end.

Fixpoint resubscribe_promises (keys : list string) (p : nat)
  (ps : gmap nat reaction) : gmap nat reaction :=
  match keys with
  | [] => ps
  | _ :: keys' =>
      resubscribe_promises keys' (S p)
        (<[p := CatchReportError]> (<[p := Unhandled]> ps))
  end.

(** What [service] does before it touches the registry. *)
Definition stale_effects (s : client) (name : string) (listener : nat)
  : list effect :=
  BusOn ("sync:" +:+ name) (ErrorHandledListener name listener)
  :: if truthy (cached s name)
     then [Log log_debug [JStr "found stale state for service"; JStr name];
           Call listener (cached s name)]
     else [].

(** The listener count [service] leaves under the key. *)
Definition counted (o : list (string * Z)) (K : string) : Z :=
  match dict_get o K with Some n => n + 1 | None => 1 end.

(** What every step guarantees; [auth] tells whether the step resolves a
    pending authentication. *)
Record step_ok (s : client) (auth : bool)
  (r : outcome unit * client * list effect) : Prop := {
  ok_token : authToken (state_of r) = authToken s;
  ok_socket : socket_ready (state_of r) = socket_ready s;
  ok_nodup : NoDup (dict_keys (_services s)) →
             NoDup (dict_keys (_services (state_of r)));
  ok_connect : count_bus "connect" (effects_of r) = if auth then 1 else 0;
  ok_ready : ready (state_of r) = true → ready s = true ∨ auth = true;
  ok_unsubscribe : socket_ready s = JUndefined →
                   requests_named "unsubscribe" (effects_of r) = [];
  ok_cache : ∀ name, _stateCache (state_of r) !! name ≠ _stateCache s !! name →
                     dict_in (_services s) name = true
}.

End Client.

(** * The older build *)

Module Legacy.

Inductive SOCKET_ERROR : Type :=
| GENERAL | TIMEOUT | NO_ATTEMPTS_LEFT | AUTH_INVALID_TOKEN | AUTH_TIMEOUT.

Definition SOCKET_ERROR_value (e : SOCKET_ERROR) : jsval :=
  JStr match e with
       | GENERAL => "GENERAL"
       | TIMEOUT => "TIMEOUT"
       | NO_ATTEMPTS_LEFT => "NO_ATTEMPTS_LEFT"
       | AUTH_INVALID_TOKEN => "AUTH_INVALID_TOKEN"
       | AUTH_TIMEOUT => "AUTH_TIMEOUT"
       end.

Inductive DISCONNECT_REASON : Type :=
| UNKNOWN | SERVER_DISCONNECT | CLIENT_DISCONNECT | PING_TIMEOUT.

Definition DISCONNECT_REASON_value (r : DISCONNECT_REASON) : jsval :=
  JStr match r with
       | UNKNOWN => "UNKNOWN"
       | SERVER_DISCONNECT => "SERVER_DISCONNECT"
       | CLIENT_DISCONNECT => "CLIENT_DISCONNECT"
       | PING_TIMEOUT => "PING_TIMEOUT"
       end.

(** A listener count: an integer, or the NaN that [--] leaves behind when
    the entry is missing or inherited. *)
Inductive number : Type := Num (n : Z) | NaN.

(** [x--] on the value found under a key. *)
Definition decrement (x : option number) : number :=
  match x with
  | Some (Num n) => Num (n - 1)
  | _ => NaN
  end.

(** [x === 0]. *)
Definition is_zero (x : number) : bool :=
  match x with Num n => (n =? 0)%Z | NaN => false end.

(** The instance fields; [socket_connected] is [this.socket.connected],
    which the transport keeps. *)
Record client : Type := {
  authToken : string;
  socket_connected : bool;
  _subscriptions : list (string * number);
  _subscribeTo : list string;
  _unsubscribeFrom : list string
}.

Definition set_connected (b : bool) (s : client) : client :=
  {| authToken := authToken s; socket_connected := b;
     _subscriptions := _subscriptions s; _subscribeTo := _subscribeTo s;
     _unsubscribeFrom := _unsubscribeFrom s |}.

Definition set_subscriptions (o : list (string * number)) (s : client) : client :=
  {| authToken := authToken s; socket_connected := socket_connected s;
     _subscriptions := o; _subscribeTo := _subscribeTo s;
     _unsubscribeFrom := _unsubscribeFrom s |}.

Definition set_subscribeTo (q : list string) (s : client) : client :=
  {| authToken := authToken s; socket_connected := socket_connected s;
     _subscriptions := _subscriptions s; _subscribeTo := q;
     _unsubscribeFrom := _unsubscribeFrom s |}.

Definition set_unsubscribeFrom (q : list string) (s : client) : client :=
  {| authToken := authToken s; socket_connected := socket_connected s;
     _subscriptions := _subscriptions s; _subscribeTo := _subscribeTo s;
     _unsubscribeFrom := q |}.

Definition constructor (url authToken : string) : outcome client :=
  match url, authToken with
  | EmptyString, _ => Throw (JStr "You need to pass an URL.")
  | _, EmptyString => Throw (JStr "You need to pass an Auth Token.")
  | _, _ =>
      Return {| authToken := authToken; socket_connected := false;
                _subscriptions := []; _subscribeTo := [];
                _unsubscribeFrom := [] |}
  end.

Local Open Scope handler_scope.

Definition disconnectReason (reason : jsval) : DISCONNECT_REASON :=
  match reason with
  | JStr r =>
      if String.eqb r "io server disconnect" then SERVER_DISCONNECT
      else if String.eqb r "io client disconnect" then CLIENT_DISCONNECT
      else if String.eqb r "ping timeout" then CLIENT_DISCONNECT
      else UNKNOWN
  | _ => UNKNOWN
  end.

(** The authenticated handler.  Each [while] loop shifts its queue until
    it is empty, so it visits the entries the queue held on entry, in
    order, one [shift] each. *)
Definition authenticated_handler : handler client unit :=
  s ← this;
  for_each (_subscribeTo s) (λ event,
    assign (λ s, set_subscribeTo (tl (_subscribeTo s)) s) ;;
    perform (SocketEmit "subscribe" (JObj [("event", JStr event)]) None)) ;;
  s ← this;
  for_each (_unsubscribeFrom s) (λ event,
    assign (λ s, set_unsubscribeFrom (tl (_unsubscribeFrom s)) s) ;;
    perform (SocketEmit "unsubscribe" (JObj [("event", JStr event)]) None)) ;;
  perform (BusEmit "connect" []).

(** The handlers [_setupSocketHandlers] installs, by event name. *)
Definition _setupSocketHandlers (event : string) (args : list jsval)
  : handler client unit :=
  if String.eqb event "*" then
    if negb (includes ["connect"; "disconnect"; "reconnecting"; "error"]
                      (arg0 args))
    then match arg0 args with
         | JStr name => perform (BusEmit name (tl args))
         | _ => throw (JStr "nanobus.emit: eventName should be type string or symbol")
         end
    else ret tt
  else if String.eqb event "connect" then
    s ← this;
    perform (SocketEmit "authenticate" (JObj [("token", JStr (authToken s))]) None)
  else if String.eqb event "authenticated" then authenticated_handler
  else if String.eqb event "disconnect" then
    let disconnectReason := disconnectReason (arg0 args) in
    perform (BusEmit "disconnect" [DISCONNECT_REASON_value disconnectReason])
  else if String.eqb event "reconnect_attempt" then
    perform (BusEmit "reconnecting" [arg0 args])
  else if String.eqb event "connect_error" then
    perform (BusEmit "error" [SOCKET_ERROR_value GENERAL; arg0 args])
  else if String.eqb event "connect_timeout" then
    perform (BusEmit "error" [SOCKET_ERROR_value TIMEOUT; arg0 args])
  else if String.eqb event "unauthorized" then
    if nullish (arg0 args) then throw TypeError else
    let authErrorType :=
      match field (arg0 args) "type" with
      | JStr "TIMEOUT" => AUTH_TIMEOUT
      | _ => AUTH_INVALID_TOKEN
      end in
    perform (BusEmit "error" [SOCKET_ERROR_value authErrorType; arg0 args])
  else if String.eqb event "reconnect_failed" then
    perform (BusEmit "error" [SOCKET_ERROR_value NO_ATTEMPTS_LEFT])
  else ret tt.

Definition onevent (event : string) (args : list jsval) : handler client unit :=
  _setupSocketHandlers event args ;;
  _setupSocketHandlers "*" (JStr event :: args).

(** [subscribe(serverEvent, listener)], up to the disposer it returns. *)
Definition subscribe (serverEvent : string) (listener : nat)
  : handler client unit :=
  perform (SocketOn serverEvent (Listener listener)) ;;
  s ← this;
  when (negb (dict_in (_subscriptions s) serverEvent))
    (if socket_connected s then
       perform (SocketEmit "subscribe" (JObj [("event", JStr serverEvent)]) None) ;;
       assign (set_subscriptions (dict_set (_subscriptions s) serverEvent (Num 1)))
     else
       assign (set_subscribeTo (_subscribeTo s ++ [serverEvent]))).

(** The disposer.  What [--] finds under a key that is not an own
    property, [undefined] or an inherited value, counts as NaN.  The NaN it
    assigns becomes an own property, except under [__proto__], the
    prototype slot, which takes objects only. *)
Definition disposer (serverEvent : string) (listener : nat)
  : handler client unit :=
  perform (SocketRemoveListener serverEvent (Listener listener)) ;;
  s ← this;
  if socket_connected s then
    let count := decrement (dict_get (_subscriptions s) serverEvent) in
    when (dict_has (_subscriptions s) serverEvent
          || negb (String.eqb serverEvent "__proto__"))
      (assign (set_subscriptions (dict_set (_subscriptions s) serverEvent count))) ;;
    when (is_zero count)
      (assign (λ s, set_subscriptions (dict_delete (_subscriptions s) serverEvent) s) ;;
       perform (SocketEmit "unsubscribe" (JObj [("event", JStr serverEvent)]) None))
  else
    assign (set_unsubscribeFrom (_unsubscribeFrom s ++ [serverEvent])).

Inductive input : Type :=
| Emit (event : string) (args : list jsval)
| Packet (event : string) (args : list jsval)
| CallSubscribe (serverEvent : string) (listener : nat)
| CallDisposer (serverEvent : string) (listener : nat).

(** The transport sets [socket.connected] before it emits [connect] and
    clears it before it emits [disconnect]. *)
Definition step (i : input) : handler client unit :=
  match i with
  | Emit event args =>
      (if String.eqb event "connect" then assign (set_connected true)
       else if String.eqb event "disconnect" then assign (set_connected false)
       else ret tt) ;;
      _setupSocketHandlers event args
  | Packet event args => onevent event args
  | CallSubscribe serverEvent listener => subscribe serverEvent listener
  | CallDisposer serverEvent listener => disposer serverEvent listener
  end.

Fixpoint run (inputs : list input) (s : client) : client * list effect :=
  match inputs with
  | [] => (s, [])
  | i :: inputs' =>
      let r := step i s in
      let r' := run inputs' (state_of r) in
      (fst r', effects_of r ++ snd r')
  end.

Definition fresh : client :=
  {| authToken := "token123"; socket_connected := false;
     _subscriptions := []; _subscribeTo := []; _unsubscribeFrom := [] |}.

End Legacy.

(** * Notions for the further properties *)

(** The listeners called, in order. *)
Fixpoint calls (effs : list effect) : list (nat * jsval) :=
  match effs with
  | [] => []
  | Call listener arg :: effs' => (listener, arg) :: calls effs'
  | _ :: effs' => calls effs'
  end.

Module ClientNotions.
Import Client.

(** The requests of the protocol: [authenticate] with a token, and
    [subscribe] and [unsubscribe] for a service name. *)
Definition allowed_request (token : string) (r : string * jsval) : Prop :=
  r = ("authenticate", JObj [("token", JStr token)])
  ∨ ∃ service,
      r = ("subscribe", JObj [("service", JStr service)])
      ∨ r = ("unsubscribe", JObj [("service", JStr service)]).

(** The calls an instance with token [token] makes on its collaborators:
    requests of the protocol, each with an acknowledgement callback;
    nothing added to or taken off the socket. *)
Definition effect_ok (token : string) (e : effect) : Prop :=
  match e with
  | SocketEmit event data ack => allowed_request token (event, data) ∧ is_Some ack
  | SocketOn _ _ | SocketRemoveListener _ _ => False
  | _ => True
  end.

(** Every pending promise was handed out by [_socketEmit]. *)
Definition promises_allocated (s : client) : Prop :=
  ∀ p, is_Some (promises s !! p) → p < next_promise s.

(** The pending promises that the connect handler waits on are those of
    the requests in [pending]. *)
Definition awaits (s : client) (pending : list nat) : Prop :=
  ∀ p, promises s !! p = Some AwaitAuthenticate ↔ p ∈ pending.

(** Every key of the registry has at least one listener. *)
Definition counts_positive (o : list (string * Z)) : Prop :=
  Forall (λ kv, (1 ≤ snd kv)%Z) o.

(** What every step guarantees besides [step_ok]. *)
Record step_more (s : client) (r : outcome unit * client * list effect) : Prop := {
  more_effects : Forall (effect_ok (authToken s)) (effects_of r);
  more_cache :
    _stateCache (state_of r) = _stateCache s
    ∨ ∃ name state, dict_in (_services s) name = true
                    ∧ _stateCache (state_of r) = <[name := state]> (_stateCache s);
  more_promises :
    promises_allocated s →
    promises_allocated (state_of r) ∧ next_promise s ≤ next_promise (state_of r);
  more_counts :
    counts_positive (_services s) → counts_positive (_services (state_of r))
}.


End ClientNotions.

Module LegacyNotions.
Import Legacy.

(** The instances of the older build a program can reach. *)
Inductive reachable : client → Prop :=
| reachable_new url token l :
    constructor url token = Return l → reachable l
| reachable_step l i :
    reachable l → reachable (state_of (step i l)).

(** The listener counts its registry ever holds. *)
Definition one_or_NaN (kv : string * number) : Prop :=
  snd kv = Num 1 ∨ snd kv = NaN.

(** The [subscribe] and [unsubscribe] requests for a list of keys. *)
Definition subscribe_requests (keys : list string) : list (string * jsval) :=
  map (λ event, ("subscribe", JObj [("event", JStr event)])) keys.

Definition unsubscribe_requests (keys : list string) : list (string * jsval) :=
  map (λ event, ("unsubscribe", JObj [("event", JStr event)])) keys.

(** A call of the public interface. *)
Definition api_call (i : input) : Prop :=
  match i with
  | CallSubscribe _ _ | CallDisposer _ _ => True
  | _ => False
  end.

(** The keys that calls made while the socket is not connected put on the
    two queues of [l]: a [subscribe] queues its key unless it is [in] the
    registry, a disposer always does. *)
Definition queued_subscribes (l : client) (inputs : list input) : list string :=
  flat_map (λ i, match i with
                 | CallSubscribe k _ =>
                     if dict_in (_subscriptions l) k then [] else [k]
                 | _ => []
                 end) inputs.

Definition queued_unsubscribes (inputs : list input) : list string :=
  flat_map (λ i, match i with CallDisposer k _ => [k] | _ => [] end) inputs.

End LegacyNotions.

(** * Properties *)

Ltac unfold_handler :=
  unfold bind, assign, perform, this, ret, throw, when, try_catch.

Ltac solve_ok s :=
  split; simpl; auto;
  try (by destruct s);
  try (destruct s; simpl; first [intros [=] | by intros ? ?]).

(** ** Dictionaries *)

Section DictFacts.
Context {V : Type}.
Implicit Types (o : list (string * V)) (k : string) (v : V).

Lemma dict_has_keys o k : dict_has o k = true ↔ k ∈ dict_keys o.
Proof.
  unfold dict_has, dict_keys.
  induction o as [|[k' v'] o IH]; simpl.
  - split; [discriminate | intros H; inversion H].
  - destruct (String.eqb_spec k k') as [->|Hne].
    + split; [intros _; left | reflexivity].
    + rewrite IH. split; [intros H; by right |].
      intros H. inversion H; [congruence | assumption].
Qed.

Lemma dict_has_false o k : dict_has o k = false ↔ k ∉ dict_keys o.
Proof.
  rewrite <- dict_has_keys. destruct (dict_has o k); split; congruence.
Qed.

Lemma dict_in_own o k : dict_has o k = true → dict_in o k = true.
Proof. unfold dict_in. by intros ->. Qed.

Lemma dict_in_false o k :
  dict_in o k = false ↔ dict_has o k = false ∧ inherited k = false.
Proof. unfold dict_in. apply orb_false_iff. Qed.

(** Assigning to a key the object has. *)
Lemma dict_get_update_eq o k v :
  dict_has o k = true → dict_get (dict_update o k v) k = Some v.
Proof.
  unfold dict_has. induction o as [|[k' v'] o IH]; simpl; [discriminate|].
  destruct (String.eqb k k') eqn:E; simpl; rewrite E; [done | exact IH].
Qed.

Lemma dict_get_update_ne o k k' v :
  k ≠ k' → dict_get (dict_update o k v) k' = dict_get o k'.
Proof.
  intros Hne. induction o as [|[k0 v0] o IH]; simpl; [done|].
  destruct (String.eqb_spec k k0) as [->|Hk]; simpl.
  - destruct (String.eqb_spec k' k0); [congruence | reflexivity].
  - destruct (String.eqb_spec k' k0); [reflexivity | exact IH].
Qed.

Lemma dict_keys_update o k v : dict_keys (dict_update o k v) = dict_keys o.
Proof.
  unfold dict_keys. induction o as [|[k' v'] o IH]; simpl; [done|].
  destruct (String.eqb k k'); simpl; [done | by rewrite IH].
Qed.

(** Assigning to a key the object lacks. *)
Lemma dict_get_insert_eq o k v :
  dict_has o k = false → dict_get (dict_insert o k v) k = Some v.
Proof.
  unfold dict_has. induction o as [|[k' v'] o IH]; simpl.
  - by rewrite String.eqb_refl.
  - destruct (String.eqb k k') eqn:E; [discriminate|]. intros H.
    destruct (enumerated_before k k'); simpl.
    + by rewrite String.eqb_refl.
    + rewrite E. by apply IH.
Qed.

Lemma dict_get_insert_ne o k k' v :
  k ≠ k' → dict_get (dict_insert o k v) k' = dict_get o k'.
Proof.
  intros Hne. induction o as [|[k0 v0] o IH]; simpl.
  - destruct (String.eqb_spec k' k); [congruence | reflexivity].
  - destruct (enumerated_before k k0); simpl.
    + destruct (String.eqb_spec k' k); [congruence | reflexivity].
    + destruct (String.eqb k' k0); [reflexivity | exact IH].
Qed.

Lemma dict_keys_insert o k v x :
  x ∈ dict_keys (dict_insert o k v) ↔ x = k ∨ x ∈ dict_keys o.
Proof.
  unfold dict_keys. induction o as [|[k' v'] o IH]; simpl.
  - rewrite list_elem_of_singleton. split; [by left | intros [H|H]; [done | inversion H]].
  - destruct (enumerated_before k k'); simpl.
    + by rewrite elem_of_cons.
    + rewrite !elem_of_cons, IH. tauto.
Qed.

Lemma dict_keys_insert_NoDup o k v :
  dict_has o k = false → NoDup (dict_keys o) → NoDup (dict_keys (dict_insert o k v)).
Proof.
  intros Hk. apply dict_has_false in Hk. revert Hk.
  unfold dict_keys. induction o as [|[k' v'] o IH]; simpl; intros Hk Hnd.
  - apply NoDup_singleton.
  - apply not_elem_of_cons in Hk as [Hne Hk].
    inversion Hnd as [|? ? Hnotin Hnd']; subst.
    destruct (enumerated_before k k'); simpl.
    + constructor; [|done]. apply not_elem_of_cons. by split.
    + constructor; [|by apply IH].
      intros Hin. apply (dict_keys_insert o k v k') in Hin as [Heq|Hin];
        [congruence | done].
Qed.

(** Assigning. *)
Lemma dict_get_set_eq o k v : dict_get (dict_set o k v) k = Some v.
Proof.
  unfold dict_set. destruct (dict_has o k) eqn:E.
  - by apply dict_get_update_eq.
  - by apply dict_get_insert_eq.
Qed.

Lemma dict_get_set_ne o k k' v :
  k ≠ k' → dict_get (dict_set o k v) k' = dict_get o k'.
Proof.
  intros Hne. unfold dict_set. destruct (dict_has o k).
  - by apply dict_get_update_ne.
  - by apply dict_get_insert_ne.
Qed.

Lemma dict_has_set o k k' v :
  dict_has (dict_set o k v) k' = String.eqb k k' || dict_has o k'.
Proof.
  unfold dict_has at 1. destruct (String.eqb_spec k k') as [<-|Hne].
  - by rewrite dict_get_set_eq.
  - by rewrite dict_get_set_ne.
Qed.

Lemma dict_keys_set_NoDup o k v :
  NoDup (dict_keys o) → NoDup (dict_keys (dict_set o k v)).
Proof.
  intros Hnd. unfold dict_set. destruct (dict_has o k) eqn:Hk.
  - by rewrite dict_keys_update.
  - by apply dict_keys_insert_NoDup.
Qed.


(** Deleting. *)
Lemma dict_keys_delete_subset o k x :
  x ∈ dict_keys (dict_delete o k) → x ∈ dict_keys o.
Proof.
  unfold dict_keys. induction o as [|[k' v'] o IH]; simpl; [done|].
  destruct (String.eqb k k'); simpl.
  - intros H. by right.
  - intros H. inversion H; subst; [left | right; auto].
Qed.

Lemma dict_keys_delete_NoDup o k :
  NoDup (dict_keys o) → NoDup (dict_keys (dict_delete o k)).
Proof.
  unfold dict_keys. induction o as [|[k' v'] o IH]; simpl; [done|].
  intros Hnd. inversion Hnd as [|? ? Hnotin Hnd']; subst.
  destruct (String.eqb k k'); simpl; [assumption|].
  constructor; [| auto].
  intros Hin. apply Hnotin. by apply (dict_keys_delete_subset o k).
Qed.

Lemma dict_get_delete_eq o k :
  NoDup (dict_keys o) → dict_get (dict_delete o k) k = None.
Proof.
  unfold dict_keys. induction o as [|[k' v'] o IH]; simpl; [done|].
  intros Hnd. inversion Hnd as [|? ? Hnotin Hnd']; subst.
  destruct (String.eqb_spec k k') as [->|Hne]; simpl.
  - apply dict_has_false in Hnotin. unfold dict_has in Hnotin.
    by destruct (dict_get o k').
  - destruct (String.eqb_spec k k'); [congruence | auto].
Qed.

Lemma dict_delete_insert o k v :
  dict_has o k = false → dict_delete (dict_insert o k v) k = o.
Proof.
  unfold dict_has. induction o as [|[k' w] o IH]; simpl.
  - intros _. by rewrite String.eqb_refl.
  - destruct (String.eqb k k') eqn:E; [discriminate|]. intros H.
    destruct (enumerated_before k k'); simpl.
    + by rewrite String.eqb_refl.
    + rewrite E. by rewrite IH.
Qed.

Lemma dict_delete_update o k v :
  dict_delete (dict_update o k v) k = dict_delete o k.
Proof.
  induction o as [|[k' w] o IH]; simpl; [done|].
  destruct (String.eqb k k') eqn:E; simpl; rewrite E; [done | by rewrite IH].
Qed.

(** Setting a key that is new and deleting it again gives the object
    back, whatever was assigned to the key in between. *)
Lemma dict_delete_set_new o k v v' :
  dict_has o k = false → dict_delete (dict_set (dict_set o k v) k v') k = o.
Proof.
  intros Hk. unfold dict_set at 1. rewrite dict_has_set, String.eqb_refl. simpl.
  rewrite dict_delete_update. unfold dict_set. rewrite Hk.
  by apply dict_delete_insert.
Qed.

(** What holds of every value. *)
Lemma dict_update_Forall (P : V → Prop) o k v :
  P v → Forall (λ kv, P (snd kv)) o → Forall (λ kv, P (snd kv)) (dict_update o k v).
Proof.
  intros Hv. induction o as [|[k' v'] o IH]; simpl; intros H; [done|].
  inversion H as [|? ? Hv' Ho]; subst.
  destruct (String.eqb k k'); constructor; auto.
Qed.

Lemma dict_insert_Forall (P : V → Prop) o k v :
  P v → Forall (λ kv, P (snd kv)) o → Forall (λ kv, P (snd kv)) (dict_insert o k v).
Proof.
  intros Hv. induction o as [|[k' v'] o IH]; simpl; intros H.
  - by repeat constructor.
  - inversion H as [|? ? Hv' Ho]; subst.
    destruct (enumerated_before k k'); repeat constructor; auto.
Qed.

Lemma dict_set_Forall (P : V → Prop) o k v :
  P v → Forall (λ kv, P (snd kv)) o → Forall (λ kv, P (snd kv)) (dict_set o k v).
Proof.
  intros Hv H. unfold dict_set. destruct (dict_has o k).
  - by apply dict_update_Forall.
  - by apply dict_insert_Forall.
Qed.

Lemma dict_delete_Forall (P : V → Prop) o k :
  Forall (λ kv, P (snd kv)) o → Forall (λ kv, P (snd kv)) (dict_delete o k).
Proof.
  induction o as [|[k' v'] o IH]; simpl; intros H; [done|].
  inversion H as [|? ? Hv' Ho]; subst.
  destruct (String.eqb k k'); [done | constructor; auto].
Qed.

Lemma dict_delete_set_Forall (P : V → Prop) o k v :
  Forall (λ kv, P (snd kv)) o →
  Forall (λ kv, P (snd kv)) (dict_delete (dict_set o k v) k).
Proof.
  intros H. unfold dict_set. destruct (dict_has o k) eqn:Hk.
  - rewrite dict_delete_update. by apply dict_delete_Forall.
  - by rewrite dict_delete_insert.
Qed.

Lemma dict_get_Forall (P : V → Prop) o k v :
  Forall (λ kv, P (snd kv)) o → dict_get o k = Some v → P v.
Proof.
  induction o as [|[k' v'] o IH]; simpl; intros H Hget; [done|].
  inversion H as [|? ? Hv' Ho]; subst.
  destruct (String.eqb k k'); [by injection Hget as <- | auto].
Qed.

End DictFacts.

(** ** Effect lists *)

Lemma bus_events_app (a b : list effect) :
  bus_events (a ++ b) = bus_events a ++ bus_events b.
Proof.
  induction a as [|e a IH]; simpl; [reflexivity|].
  destruct e; simpl; by rewrite ?IH.
Qed.

Lemma requests_app (a b : list effect) :
  requests (a ++ b) = requests a ++ requests b.
Proof.
  induction a as [|e a IH]; simpl; [reflexivity|].
  destruct e; simpl; by rewrite ?IH.
Qed.

Lemma count_bus_app event (a b : list effect) :
  count_bus event (a ++ b) = count_bus event a + count_bus event b.
Proof. unfold count_bus. by rewrite bus_events_app, filter_app, length_app. Qed.

(** ** The current source: readiness, disconnects, the interceptor *)

Module ClientFacts.
Import Client.

Lemma set_ready_same s : set_ready (ready s) s = s.
Proof. by destruct s. Qed.

Lemma internal_not_lifecycle x :
  existsb (String.eqb ("internal:" +:+ x)) lifecycle = false.
Proof. reflexivity. Qed.

Lemma lifecycle_includes event :
  existsb (String.eqb event) lifecycle = true ↔ event ∈ lifecycle.
Proof.
  rewrite existsb_exists. split.
  - intros (x & Hx & Heq). apply String.eqb_eq in Heq. subst.
    by apply list_elem_of_In.
  - intros H. exists event.
    split; [by apply list_elem_of_In | apply String.eqb_refl].
Qed.

(** The handler registered for the wildcard channel. *)
Lemma wildcard_handler s event args :
  _setupSocketHandlers "*" (JStr event :: args) s =
  (Return tt, s,
   if existsb (String.eqb event) lifecycle then []
   else [BusEmit ("internal:" +:+ event) args]).
Proof.
  unfold _setupSocketHandlers.
  change (String.eqb "*" "*") with true. cbv iota.
  unfold arg0, includes. cbn [hd tl ToString]. fold lifecycle.
  by destruct (existsb (String.eqb event) lifecycle).
Qed.

End ClientFacts.

(** C2: the disconnect reason handed to the listeners is a function of the
    transport's reason string alone: [io server disconnect] gives
    SERVER_DISCONNECT, [io client disconnect] and [ping timeout] give
    CLIENT_DISCONNECT, any other string gives UNKNOWN; the disconnect
    handler, in the current source and in the older build, emits
    [disconnect] with exactly that value. *)
Theorem C2_disconnect_reason_classification :
  Client.disconnectReason (JStr "io server disconnect") = Client.SERVER_DISCONNECT ∧
  Client.disconnectReason (JStr "io client disconnect") = Client.CLIENT_DISCONNECT ∧
  Client.disconnectReason (JStr "ping timeout") = Client.CLIENT_DISCONNECT ∧
  (∀ reason : string,
     reason ≠ "io server disconnect" → reason ≠ "io client disconnect" →
     reason ≠ "ping timeout" →
     Client.disconnectReason (JStr reason) = Client.UNKNOWN) ∧
  (∀ (s : Client.client) (reason : string),
     Client.step (Client.Emit "disconnect" [JStr reason]) s =
     (Return tt, Client.set_ready false s,
      [BusEmit "disconnect"
         [Client.DISCONNECT_REASON_value (Client.disconnectReason (JStr reason))]])) ∧
  (∀ reason : string,
     Legacy.DISCONNECT_REASON_value (Legacy.disconnectReason (JStr reason)) =
     Client.DISCONNECT_REASON_value (Client.disconnectReason (JStr reason))) ∧
  (∀ (s : Legacy.client) (reason : string),
     Legacy.step (Legacy.Emit "disconnect" [JStr reason]) s =
     (Return tt, Legacy.set_connected false s,
      [BusEmit "disconnect"
         [Legacy.DISCONNECT_REASON_value (Legacy.disconnectReason (JStr reason))]])).
Proof.
  split_and!; try reflexivity.
  - intros reason H1 H2 H3. unfold Client.disconnectReason.
    destruct (String.eqb_spec reason "io server disconnect"); [done|].
    destruct (String.eqb_spec reason "io client disconnect"); [done|].
    destruct (String.eqb_spec reason "ping timeout"); done.
  - intros reason. unfold Client.disconnectReason, Legacy.disconnectReason.
    destruct (String.eqb reason "io server disconnect"); [done|].
    destruct (String.eqb reason "io client disconnect"); [done|].
    destruct (String.eqb reason "ping timeout"); done.
Qed.

Lemma C2_witness :
  Client.disconnectReason (JStr "transport close") = Client.UNKNOWN.
Proof.
  apply (proj1 (proj2 (proj2 (proj2 C2_disconnect_reason_classification))));
    discriminate.
Defined.

(** C7: the handler of the wildcard channel, called with an event name and
    its arguments, emits [internal:<name>] with those arguments on the bus
    when the name is none of [connect], [disconnect], [reconnecting],
    [error], and emits nothing when it is one of them; the key it emits
    under is never one of those four; and a packet whose own handlers
    return gets exactly this added to their effects by [onevent]. *)
Theorem C7_wildcard_republishes_under_namespace
  (s : Client.client) (event : string) (args : list jsval) :
  (event ∉ Client.lifecycle →
   Client._setupSocketHandlers "*" (JStr event :: args) s =
   (Return tt, s, [BusEmit ("internal:" +:+ event) args])) ∧
  (event ∈ Client.lifecycle →
   Client._setupSocketHandlers "*" (JStr event :: args) s = (Return tt, s, [])) ∧
  ¬ ("internal:" +:+ event ∈ Client.lifecycle) ∧
  (∀ s1 effs1,
     Client._setupSocketHandlers event args s = (Return tt, s1, effs1) →
     Client.step (Client.Packet event args) s =
     (Return tt, s1,
      effs1 ++ (if bool_decide (event ∈ Client.lifecycle) then []
                else [BusEmit ("internal:" +:+ event) args]))).
Proof.
  split_and!.
  - intros Hnot. rewrite ClientFacts.wildcard_handler.
    destruct (existsb (String.eqb event) Client.lifecycle) eqn:E; [|done].
    by apply ClientFacts.lifecycle_includes in E.
  - intros Hyes. rewrite ClientFacts.wildcard_handler.
    apply ClientFacts.lifecycle_includes in Hyes. by rewrite Hyes.
  - intros H. apply ClientFacts.lifecycle_includes in H.
    by rewrite ClientFacts.internal_not_lifecycle in H.
  - intros s1 effs1 Hown. simpl. unfold Client.onevent, bind.
    rewrite Hown, ClientFacts.wildcard_handler. do 2 f_equal.
    case_bool_decide as Hd.
    + apply ClientFacts.lifecycle_includes in Hd. by rewrite Hd.
    + destruct (existsb (String.eqb event) Client.lifecycle) eqn:E; [|done].
      by apply ClientFacts.lifecycle_includes in E.
Qed.

Lemma C7_witness :
  Client._setupSocketHandlers "*" [JStr "update:videoQueue"; JNum 1] Client.fresh =
  (Return tt, Client.fresh, [BusEmit "internal:update:videoQueue" [JNum 1]]).
Proof.
  apply (proj1 (C7_wildcard_republishes_under_namespace
                  Client.fresh "update:videoQueue" [JNum 1])).
  intros H. repeat (apply elem_of_cons in H as [H|H]; [discriminate|]).
  by apply elem_of_nil in H.
Defined.

(** C8, as the code has it: the [reconnect_attempt] handler emits
    [reconnecting] with the attempt number and sets the readiness flag to
    false; the subscription registry, the state cache, the pending
    promises and the token are left as they were, and an instance that
    was not ready is left unchanged altogether.  The older build, which
    has no readiness flag, only emits. *)
Theorem C8_reconnect_attempt_clears_ready
  (s : Client.client) (l : Legacy.client) (attempt : jsval) :
  Client.step (Client.Emit "reconnect_attempt" [attempt]) s =
  (Return tt, Client.set_ready false s, [BusEmit "reconnecting" [attempt]]) ∧
  Client._services (Client.set_ready false s) = Client._services s ∧
  Client._stateCache (Client.set_ready false s) = Client._stateCache s ∧
  Client.promises (Client.set_ready false s) = Client.promises s ∧
  (Client.ready s = false → Client.set_ready false s = s) ∧
  Legacy.step (Legacy.Emit "reconnect_attempt" [attempt]) l =
  (Return tt, l, [BusEmit "reconnecting" [attempt]]).
Proof.
  split_and!; try reflexivity.
  intros Hr. rewrite <- Hr. apply ClientFacts.set_ready_same.
Qed.

Lemma C8_witness :
  Client.set_ready false Client.fresh = Client.fresh.
Proof.
  apply (C8_reconnect_attempt_clears_ready Client.fresh Legacy.fresh (JNum 1)).
  reflexivity.
Defined.

(** C8 as stated fails: an instance that is ready (the transport connected
    and the authentication was acknowledged) is no longer ready after a
    [reconnect_attempt]. *)
Lemma C8_counterexample :
  let s := fst (Client.run [Client.Emit "connect" []; Client.Ack 0 (JObj [])]
                           Client.fresh) in
  Client.ready s = true ∧
  state_of (Client.step (Client.Emit "reconnect_attempt" [JNum 1]) s) ≠ s.
Proof.
  split; [reflexivity|].
  intros H. apply (f_equal Client.ready) in H. vm_compute in H. discriminate.
Qed.



(** Under a name that [Object.prototype] defines the getters find the
    inherited built-in, not [undefined]. *)
Example view_of_inherited_name :
  Client.view_state Client.fresh "toString" = JBuiltin "toString" ∧
  Client.view_ready Client.fresh "toString" = true.
Proof. by split. Qed.

(** A state pushed for [__proto__] becomes the prototype of the cache, and
    the getters of every service find its properties. *)
Example view_through_replaced_prototype :
  let payload := JObj [("service", JStr "__proto__");
                       ("state", JObj [("lights", JNull)])] in
  let s := state_of (Client.step (Client.Packet "sync" [payload]) Client.fresh) in
  Client._stateCache s !! "lights" = None ∧
  Client.view_ready s "lights" = false.
Proof. vm_compute. by split. Qed.

(** ** The current source: what each handler does *)

Module ClientSteps.
Import Client.

Lemma set_promises_set_promises ps n ps' n' s :
  set_promises ps n (set_promises ps' n' s) = set_promises ps n s.
Proof. by destruct s. Qed.

Lemma set_promises_same s : set_promises (promises s) (next_promise s) s = s.
Proof. by destruct s. Qed.

(** The connect handler sends [authenticate] and waits. *)
Lemma connect_handler_eq s :
  connect_handler s =
  (Return tt,
   set_promises (<[next_promise s := AwaitAuthenticate]>
                   (<[next_promise s := Unhandled]> (promises s)))
                (S (next_promise s)) (set_ready false s),
   [Log log_debug [JStr "auth:start"];
    SocketEmit "authenticate" (JObj [("token", JStr (authToken s))])
               (Some (next_promise s))]).
Proof. by destruct s. Qed.

Lemma resubscribe_loop keys s :
  for_each keys (λ service,
    bind (perform (Log log_debug [JStr "subscribe to service:"; JStr service]))
      (λ _, bind (_socketEmit "subscribe" (JObj [("service", JStr service)]))
              (λ p, react p CatchReportError))) s =
  (Return tt,
   set_promises (resubscribe_promises keys (next_promise s) (promises s))
                (length keys + next_promise s) s,
   resubscribe_effects keys (next_promise s)).
Proof.
  revert s. induction keys as [|k keys IH]; intros s.
  - simpl. unfold ret. by rewrite set_promises_same.
  - cbn [for_each]. unfold bind at 1.
    unfold bind at 1. unfold perform at 1. cbn iota beta.
    unfold bind at 1. unfold _socketEmit, react. unfold_handler. cbn iota beta.
    rewrite IH. simpl.
    rewrite !set_promises_set_promises.
    do 3 f_equal. lia.
Qed.

(** When the authentication resolves: ready, one [subscribe] per key of
    the registry, then [connect]. *)
Lemma connect_handler_resume_eq response s :
  connect_handler_resume response s =
  (Return tt,
   set_promises
     (resubscribe_promises (dict_keys (_services s)) (next_promise s) (promises s))
     (length (dict_keys (_services s)) + next_promise s) (set_ready true s),
   [Log log_debug [JStr "auth:complete"; response]; Log log_debug [JStr "ready"]]
   ++ resubscribe_effects (dict_keys (_services s)) (next_promise s)
   ++ [BusEmit "connect" []]).
Proof.
  unfold connect_handler_resume, try_catch.
  unfold bind at 1. unfold assign at 1. cbn iota beta.
  unfold bind at 1. unfold perform at 1. cbn iota beta.
  unfold bind at 1. unfold perform at 1. cbn iota beta.
  unfold bind at 1. unfold this at 1. cbn iota beta.
  unfold bind at 1. rewrite resubscribe_loop.
  unfold perform. cbn iota beta.
  by destruct s.
Qed.

Lemma connect_handler_catch_eq e s :
  connect_handler_catch e s =
  (Return tt, set_ready false s, [BusEmit "error" [SOCKET_ERROR_value AUTH_FAILED; e]]).
Proof. reflexivity. Qed.

Lemma reportError_eq e s :
  reportError e s =
  (Return tt, s,
   [Log log_error [JStr "error reported"; e];
    BusEmit "error" [SOCKET_ERROR_value GENERAL; e]]).
Proof. reflexivity. Qed.

(** The sync handler, case by case. *)
Lemma sync_handler_nullish payload s :
  nullish payload = true → sync_handler payload s = (Throw TypeError, s, []).
Proof. intros H. unfold sync_handler. by rewrite H. Qed.

Lemma sync_handler_unsubscribed payload s :
  nullish payload = false →
  dict_in (_services s) (ToString (field payload "service")) = false →
  sync_handler payload s =
  (Return tt, s,
   [Log log_debug [JStr "sync â€“ service:"; field payload "service";
                   JStr "state:"; field payload "state"];
    Log log_warn [JStr "received sync update for unsubscribed service";
                  field payload "service"; field payload "state"]]).
Proof.
  intros Hn Hs. unfold sync_handler. rewrite Hn. unfold_handler.
  cbn iota beta. by rewrite Hs.
Qed.

Lemma sync_handler_subscribed payload s :
  nullish payload = false →
  dict_in (_services s) (ToString (field payload "service")) = true →
  sync_handler payload s =
  (Return tt,
   set_stateCache (<[ToString (field payload "service") := field payload "state"]>
                     (_stateCache s)) s,
   [Log log_debug [JStr "sync â€“ service:"; field payload "service";
                   JStr "state:"; field payload "state"];
    BusEmit ("sync:" +:+ ToString (field payload "service"))
            [field payload "state"]]).
Proof.
  intros Hn Hs. unfold sync_handler. rewrite Hn. unfold_handler.
  cbn iota beta. by rewrite Hs.
Qed.

Lemma settle_cases p result s :
  (promises s !! p = None ∧ settle p result s = (Return tt, s, []))
  ∨ (∃ r, promises s !! p = Some r ∧
       let s0 := set_promises (delete p (promises s)) (next_promise s) s in
       match r, result with
       | AwaitAuthenticate, inl response =>
           settle p result s = connect_handler_resume response s0
       | AwaitAuthenticate, inr e => settle p result s = connect_handler_catch e s0
       | CatchReportError, inr e => settle p result s = reportError e s0
       | _, _ => settle p result s = (Return tt, s0, [])
       end).
Proof.
  unfold settle. unfold_handler. cbn iota beta.
  destruct (promises s !! p) as [r|] eqn:Hp; [right | by left; split].
  exists r. split; [reflexivity|].
  destruct r, result; cbn iota beta; try reflexivity;
    match goal with
    | |- context [connect_handler_resume ?j ?s0] =>
        by destruct (connect_handler_resume j s0) as [[? ?] ?]
    | |- context [connect_handler_catch ?j ?s0] =>
        by destruct (connect_handler_catch j s0) as [[? ?] ?]
    | |- context [reportError ?j ?s0] =>
        by destruct (reportError j s0) as [[? ?] ?]
    end.
Qed.


Lemma resubscribe_bus_events keys p : bus_events (resubscribe_effects keys p) = [].
Proof. revert p. induction keys as [|k keys IH]; intros p; simpl; auto. Qed.

Lemma resubscribe_requests keys p :
  requests (resubscribe_effects keys p) =
  map (λ service, ("subscribe", JObj [("service", JStr service)])) keys.
Proof.
  revert p. induction keys as [|k keys IH]; intros p; simpl; [done|].
  by rewrite IH.
Qed.

Lemma requests_named_app event a b :
  requests_named event (a ++ b) = requests_named event a ++ requests_named event b.
Proof. unfold requests_named. by rewrite requests_app, filter_app. Qed.

Lemma resubscribe_no_unsubscribe keys p :
  requests_named "unsubscribe" (resubscribe_effects keys p) = [].
Proof.
  unfold requests_named. rewrite resubscribe_requests.
  induction keys as [|k keys IH]; simpl; [done|].
  rewrite filter_cons_False; [exact IH | simpl; discriminate].
Qed.

Lemma step_ok_skip s : step_ok s false (Return tt, s, []).
Proof. solve_ok s. Qed.

Lemma step_ok_throw s e : step_ok s false (Throw e, s, []).
Proof. solve_ok s. Qed.

Lemma sync_handler_ok payload s : step_ok s false (sync_handler payload s).
Proof.
  destruct (nullish payload) eqn:Hn.
  { rewrite sync_handler_nullish by done. apply step_ok_throw. }
  destruct (dict_in (_services s) (ToString (field payload "service"))) eqn:Hs.
  - rewrite sync_handler_subscribed by done.
    split; simpl; auto; try by destruct s.
    destruct s; simpl in *. intros name Hne.
    destruct (decide (ToString (field payload "service") = name)) as [<-|Hk];
      [done|].
    by rewrite lookup_insert_ne in Hne.
  - rewrite sync_handler_unsubscribed by done. solve_ok s.
Qed.

Lemma handlers_ok event args s :
  step_ok s false (_setupSocketHandlers event args s).
Proof.
  unfold _setupSocketHandlers, _setupErrorHandlers.
  destruct (String.eqb event "*").
  { destruct (negb _); [solve_ok s | apply step_ok_skip]. }
  destruct (String.eqb event "connect").
  { rewrite connect_handler_eq. solve_ok s. }
  destruct (String.eqb event "disconnect"); [solve_ok s|].
  destruct (String.eqb event "reconnect_attempt"); [solve_ok s|].
  destruct (String.eqb event "sync"); [apply sync_handler_ok|].
  destruct (String.eqb event "connect_error"); [solve_ok s|].
  destruct (String.eqb event "connect_timeout"); [solve_ok s|].
  destruct (String.eqb event "authentication_timeout").
  { destruct (nullish (arg0 args)); [apply step_ok_throw | solve_ok s]. }
  destruct (String.eqb event "reconnect_failed"); [solve_ok s | apply step_ok_skip].
Qed.


Lemma onevent_ok event args s : step_ok s false (onevent event args s).
Proof.
  pose proof (handlers_ok event args s) as H.
  unfold onevent, bind.
  destruct (_setupSocketHandlers event args s) as [[[[]|e] s1] effs1]; [|exact H].
  rewrite ClientFacts.wildcard_handler.
  destruct H as [Ht Hs Hn Hc Hr Hu Hca].
  destruct (existsb (String.eqb event) Client.lifecycle); simpl in *.
  - rewrite app_nil_r. by split.
  - split; simpl; auto.
    + by rewrite count_bus_app, Hc.
    + intros Hsr. rewrite requests_named_app, Hu by done. reflexivity.
Qed.

Lemma service_eq name listener s :
  service name listener s =
  match dict_get (_services s) name with
  | Some listeners =>
      (Return tt,
       set_services (dict_set (_services s) name (listeners + 1)%Z) s,
       stale_effects s name listener
       ++ [Log log_debug [JStr "already subscribed to sync from"; JStr name]])
  | None =>
      if inherited name then
        (Return tt, s,
         stale_effects s name listener
         ++ [Log log_debug [JStr "already subscribed to sync from"; JStr name]])
      else if ready s then
        (Return tt,
         set_promises (<[next_promise s := CatchReportError]>
                         (<[next_promise s := Unhandled]> (promises s)))
                      (S (next_promise s))
                      (set_services (dict_set (_services s) name 1%Z) s),
         stale_effects s name listener
         ++ [Log log_debug [JStr "subscribe to service:"; JStr name];
             SocketEmit "subscribe" (JObj [("service", JStr name)])
                        (Some (next_promise s))])
      else
        (Return tt, set_services (dict_set (_services s) name 1%Z) s,
         stale_effects s name listener)
  end.
Proof.
  unfold service, stale_effects, dict_in, dict_has. unfold_handler.
  destruct s as [tok rdy svc cache sr ps np]. simpl.
  destruct (truthy (cached _ name)); simpl;
    destruct (dict_get svc name); simpl; try reflexivity;
    destruct (inherited name); simpl; try reflexivity;
    destruct rdy; reflexivity.
Qed.

Lemma unsubscribe_eq name listener s :
  unsubscribe name listener s =
  let effs := [Log log_debug [JStr "listener unsubscribed from service"; JStr name];
               BusRemoveListener ("sync:" +:+ name) (Listener listener)] in
  match dict_get (_services s) name with
  | None =>
      if inherited name then (Return tt, s, effs) else (Throw TypeError, s, effs)
  | Some listeners =>
      let o := dict_set (_services s) name (listeners - 1)%Z in
      if (listeners - 1 <=? 0)%Z then
        let removing := Log log_debug [JStr "removing service from sync"; JStr name] in
        if truthy (socket_ready s) then
          (Return tt,
           set_promises (<[next_promise s := CatchReportError]>
                           (<[next_promise s := Unhandled]> (promises s)))
                        (S (next_promise s))
                        (set_services (dict_delete o name) s),
           effs ++ [removing;
                    SocketEmit "unsubscribe" (JObj [("service", JStr name)])
                               (Some (next_promise s))])
        else
          (Return tt, set_services (dict_delete o name) s, effs ++ [removing])
      else (Return tt, set_services o s, effs)
  end.
Proof.
  unfold unsubscribe. unfold_handler.
  destruct s as [tok rdy svc cache sr ps np]. simpl.
  destruct (dict_get svc name); simpl; [|by destruct (inherited name)].
  destruct (_ <=? _)%Z; simpl; [|reflexivity].
  destruct (truthy sr); reflexivity.
Qed.

Lemma service_ok name listener s : step_ok s false (service name listener s).
Proof.
  rewrite service_eq.
  destruct (dict_get (_services s) name);
    [|destruct (inherited name); [|destruct (ready s) eqn:Hready]];
    (split; simpl; auto;
     try (by destruct s);
     try (destruct s; simpl in *;
          first [ by apply dict_keys_set_NoDup | by left | congruence
                | by intros ? ? ]));
    unfold stale_effects; destruct (truthy (cached s name)); reflexivity.
Qed.

Lemma unsubscribe_ok name listener s : step_ok s false (unsubscribe name listener s).
Proof.
  rewrite unsubscribe_eq. cbv zeta.
  destruct (dict_get (_services s) name);
    [|destruct (inherited name); solve_ok s].
  destruct (_ <=? _)%Z; [destruct (truthy (socket_ready s)) eqn:Htruthy|];
    (split; simpl; auto;
     try (by destruct s);
     try (destruct s; simpl in *;
          first [ by intros; apply dict_keys_delete_NoDup, dict_keys_set_NoDup
                | by apply dict_keys_set_NoDup
                | by intros ->
                | by intros ? ? ])).
Qed.

Lemma resume_ok response s0 s :
  authToken s0 = authToken s → socket_ready s0 = socket_ready s →
  _services s0 = _services s → _stateCache s0 = _stateCache s →
  step_ok s true (connect_handler_resume response s0).
Proof.
  intros Ht Hs Hsv Hc. rewrite connect_handler_resume_eq.
  split; unfold state_of, effects_of; cbn [fst snd].
  - by destruct s0.
  - by destruct s0.
  - destruct s0; simpl in *. by subst.
  - unfold count_bus. rewrite !bus_events_app, resubscribe_bus_events.
    reflexivity.
  - by right.
  - intros _. rewrite !requests_named_app, resubscribe_no_unsubscribe.
    reflexivity.
  - destruct s0; simpl in *. subst. by intros ? ?.
Qed.

Lemma ack_callback_ok p response s :
  step_ok s (authenticates s (Ack p response)) (ack_callback p response s).
Proof.
  unfold ack_callback, authenticates.
  destruct (nullish response); [apply step_ok_throw|].
  set (s0 := set_promises (delete p (promises s)) (next_promise s) s).
  assert (Hs0 : step_ok s false (Return tt, s0, [])) by (subst s0; solve_ok s).
  destruct (truthy (field response "error")); simpl.
  - destruct (settle_cases p (inr (field response "error")) s)
      as [[_ ->]|(r & Hp & Hr)]; [apply step_ok_skip|].
    destruct r; simpl in Hr; rewrite Hr; try exact Hs0.
    + rewrite connect_handler_catch_eq. subst s0. solve_ok s.
    + rewrite reportError_eq. subst s0. solve_ok s.
  - destruct (settle_cases p (inl response) s) as [[Hp ->]|(r & Hp & Hr)].
    { rewrite Hp. apply step_ok_skip. }
    rewrite Hp. destruct r; simpl in Hr; rewrite Hr; try exact Hs0.
    apply resume_ok; by destruct s.
Qed.

(** Every step satisfies the guarantees. *)
Lemma step_step_ok i s : step_ok s (authenticates s i) (step i s).
Proof.
  destruct i as [event args|event args|p response|name l|name l|name e
                |event l|event l|event l]; simpl.
  - apply handlers_ok.
  - apply onevent_ok.
  - apply ack_callback_ok.
  - apply service_ok.
  - apply unsubscribe_ok.
  - solve_ok s.
  - solve_ok s.
  - solve_ok s.
  - solve_ok s.
Qed.

(** The registry of a reachable instance has no key twice, and its socket
    has no [ready] property. *)
Lemma reachable_invariant s :
  reachable s → NoDup (dict_keys (_services s)) ∧ socket_ready s = JUndefined.
Proof.
  induction 1 as [url token s Hnew | s i Hs [IHn IHs]].
  - unfold constructor in Hnew.
    destruct url; [discriminate|]. destruct token; [discriminate|].
    injection Hnew as <-. simpl. split; [constructor | reflexivity].
  - destruct (step_step_ok i s) as [_ Hsock Hnd _ _ _ _].
    split; [auto | congruence].
Qed.

End ClientSteps.

(** ** Connecting *)

Lemma run_connect_count inputs s :
  count_bus "connect" (snd (Client.run inputs s)) = Client.authentications inputs s.
Proof.
  revert s. induction inputs as [|i inputs IH]; intros s; [reflexivity|].
  simpl. rewrite count_bus_app, IH.
  by rewrite (Client.ok_connect _ _ _ (ClientSteps.step_step_ok i s)).
Qed.

(** The scenario of the documentation: construct, connect, authenticate;
    then subscribe while ready. *)
Example scenario_connect_then_service :
  let r := Client.run [Client.Emit "connect" []; Client.Ack 0 (JObj []);
                       Client.CallService "update:videoQueue" 7] Client.fresh in
  bus_events (snd r) = [("connect", [])] ∧
  requests (snd r) =
    [("authenticate", JObj [("token", JStr "token123")]);
     ("subscribe", JObj [("service", JStr "update:videoQueue")])] ∧
  Client._services (fst r) = [("update:videoQueue", 1%Z)].
Proof. vm_compute. by split_and!. Qed.

(** ** Authentication failures *)

Lemma connect_then_ack s args p response :
  p = Client.next_promise s →
  nullish response = false →
  Client.step (Client.Ack p response)
    (state_of (Client.step (Client.Emit "connect" args) s)) =
  let s0 := Client.set_promises
              (delete p (<[p := Client.AwaitAuthenticate]>
                           (<[p := Client.Unhandled]> (Client.promises s))))
              (S p) (Client.set_ready false s) in
  if truthy (field response "error")
  then Client.connect_handler_catch (field response "error") s0
  else Client.connect_handler_resume response s0.
Proof.
  intros -> Hn.
  change (Client.step (Client.Emit "connect" args) s)
    with (Client.connect_handler s).
  rewrite ClientSteps.connect_handler_eq.
  unfold state_of; cbn [fst snd]. cbn [Client.step].
  unfold Client.ack_callback. rewrite Hn.
  set (s1 := Client.set_promises _ _ _).
  assert (Hp : Client.promises s1 !! Client.next_promise s =
               Some Client.AwaitAuthenticate).
  { subst s1. destruct s; simpl. apply lookup_insert_eq. }
  cbv zeta.
  destruct (truthy (field response "error")).
  - destruct (ClientSteps.settle_cases (Client.next_promise s)
                (inr (field response "error")) s1) as [[Hnone _]|(r & Hr & Heq)];
      [congruence|].
    rewrite Hp in Hr. injection Hr as <-. simpl in Heq. rewrite Heq.
    subst s1. by rewrite ClientSteps.set_promises_set_promises.
  - destruct (ClientSteps.settle_cases (Client.next_promise s)
                (inl response) s1) as [[Hnone _]|(r & Hr & Heq)];
      [congruence|].
    rewrite Hp in Hr. injection Hr as <-. simpl in Heq. rewrite Heq.
    subst s1. by rewrite ClientSteps.set_promises_set_promises.
Qed.





(** ** Subscriptions of the current source *)

Module ClientSubscriptions.
Import Client.

Lemma run_app a b s :
  run (a ++ b) s =
  (fst (run b (fst (run a s))), snd (run a s) ++ snd (run b (fst (run a s)))).
Proof.
  revert s. induction a as [|i a IH]; intros s; simpl.
  - by destruct (run b s).
  - rewrite IH. simpl. by rewrite app_assoc.
Qed.

Lemma run_NoDup inputs s :
  NoDup (dict_keys (_services s)) →
  NoDup (dict_keys (_services (fst (run inputs s)))).
Proof.
  revert s. induction inputs as [|i inputs IH]; intros s Hnd; [done|].
  simpl. apply IH. by apply (Client.ok_nodup _ _ _ (ClientSteps.step_step_ok i s)).
Qed.

(** No run of an instance whose socket has no [ready] property sends an
    [unsubscribe] request. *)
Lemma run_no_unsubscribe inputs s :
  socket_ready s = JUndefined →
  requests_named "unsubscribe" (snd (run inputs s)) = [].
Proof.
  revert s. induction inputs as [|i inputs IH]; intros s Hs; [done|].
  simpl. destruct (ClientSteps.step_step_ok i s) as [_ Hsock _ _ _ Hu _].
  rewrite ClientSteps.requests_named_app, Hu by done.
  apply IH. congruence.
Qed.

Lemma stale_effects_requests s name listener :
  requests (Client.stale_effects s name listener) = [].
Proof. unfold Client.stale_effects. by destruct (truthy _). Qed.

Lemma service_registry K l s :
  _services (state_of (step (CallService K l) s)) =
  if inherited K && negb (dict_has (_services s) K) then _services s
  else dict_set (_services s) K (counted (_services s) K).
Proof.
  cbn [step]. rewrite ClientSteps.service_eq. unfold counted, dict_has.
  destruct (dict_get (_services s) K).
  - rewrite andb_false_r. by destruct s.
  - destruct (inherited K); [done|].
    destruct (ready s); by destruct s.
Qed.

(** Under a name that only [Object.prototype] defines, [service] and its
    disposer leave the instance as it is. *)
Lemma service_inherited K l s :
  inherited K = true → dict_has (_services s) K = false →
  state_of (step (CallService K l) s) = s
  ∧ requests (effects_of (step (CallService K l) s)) = [].
Proof.
  intros Hi Hhas. cbn [step]. rewrite ClientSteps.service_eq.
  unfold dict_has in Hhas. destruct (dict_get (_services s) K); [done|].
  rewrite Hi. unfold state_of, effects_of; cbn [fst snd]. split; [done|].
  by rewrite requests_app, stale_effects_requests.
Qed.

Lemma unsubscribe_inherited K l s :
  inherited K = true → dict_has (_services s) K = false →
  step (CallUnsubscribe K l) s =
  (Return tt, s,
   [Log log_debug [JStr "listener unsubscribed from service"; JStr K];
    BusRemoveListener ("sync:" +:+ K) (Listener l)]).
Proof.
  intros Hi Hhas. cbn [step]. rewrite ClientSteps.unsubscribe_eq. cbv zeta.
  unfold dict_has in Hhas. destruct (dict_get (_services s) K); [done|].
  by rewrite Hi.
Qed.

Lemma run_inherited K (inputs : list input) s :
  inherited K = true → dict_has (_services s) K = false →
  Forall (λ i, ∃ l, i = CallService K l ∨ i = CallUnsubscribe K l) inputs →
  fst (run inputs s) = s.
Proof.
  intros Hi Hhas. induction 1 as [|i inputs (l & [-> | ->]) _ IH]; [done| |];
    cbn [run fst].
  - by rewrite (proj1 (service_inherited K l s Hi Hhas)).
  - rewrite (unsubscribe_inherited K l s Hi Hhas).
    unfold state_of; cbn [fst snd]. exact IH.
Qed.


Lemma unsubscribe_registry K l s n :
  dict_get (_services s) K = Some n →
  _services (state_of (step (CallUnsubscribe K l) s)) =
  if (n - 1 <=? 0)%Z
  then dict_delete (dict_set (_services s) K (n - 1)%Z) K
  else dict_set (_services s) K (n - 1)%Z.
Proof.
  intros Hget. cbn [step]. rewrite ClientSteps.unsubscribe_eq, Hget. cbv zeta.
  destruct (n - 1 <=? 0)%Z; [destruct (truthy (socket_ready s))|];
    by destruct s.
Qed.

(** Calls of [service] on one key count its listeners. *)
Lemma services_count K listeners s :
  inherited K = false →
  dict_get (_services (fst (run (map (CallService K) listeners) s))) K =
  match listeners with
  | [] => dict_get (_services s) K
  | _ => Some (default 0%Z (dict_get (_services s) K) + Z.of_nat (length listeners))%Z
  end.
Proof.
  intros Hi.
  revert s. induction listeners as [|l listeners IH]; intros s; [done|].
  cbn [map run fst]. rewrite IH, service_registry, Hi. cbn [andb].
  rewrite dict_get_set_eq.
  unfold counted. destruct listeners as [|l' listeners].
  - destruct (dict_get (_services s) K); cbn -[Z.of_nat Z.add]; f_equal; lia.
  - destruct (dict_get (_services s) K); cbn -[Z.of_nat Z.add]; f_equal; lia.
Qed.

(** As many disposers as the key has listeners remove it. *)
Lemma unsubscribes_remove K listeners s :
  NoDup (dict_keys (_services s)) →
  listeners ≠ [] →
  dict_get (_services s) K = Some (Z.of_nat (length listeners)) →
  dict_get (_services (fst (run (map (CallUnsubscribe K) listeners) s))) K = None.
Proof.
  revert s. induction listeners as [|l listeners IH]; intros s Hnd Hne Hget; [done|].
  cbn [map run fst].
  destruct listeners as [|l' listeners].
  - cbn [map run fst]. rewrite (unsubscribe_registry K l s _ Hget). simpl.
    apply dict_get_delete_eq. by apply dict_keys_set_NoDup.
  - apply IH.
    + by apply (Client.ok_nodup _ _ _
                  (ClientSteps.step_step_ok (CallUnsubscribe K l) s)).
    + done.
    + rewrite (unsubscribe_registry K l s _ Hget).
      destruct (_ <=? _)%Z eqn:Hle.
      * apply Z.leb_le in Hle. cbn [length] in Hle. lia.
      * rewrite dict_get_set_eq. f_equal. cbn [length]. lia.
Qed.

(** The true half of the reference counting: [N >= 1] calls of [service]
    on a key that is not in the registry, then [N] disposers, leave the
    key out of the registry; and no [unsubscribe] request is sent on the
    way, whether the instance is ready or not. *)
Lemma service_unsubscribe_balanced K listeners s :
  reachable s →
  dict_has (_services s) K = false →
  listeners ≠ [] →
  let r := run (map (CallService K) listeners
                ++ map (CallUnsubscribe K) listeners) s in
  dict_has (_services (fst r)) K = false ∧
  requests_named "unsubscribe" (snd r) = [].
Proof.
  intros Hreach Hhas Hne r. subst r.
  destruct (ClientSteps.reachable_invariant s Hreach) as [Hnd Hsock].
  split; [|by apply run_no_unsubscribe].
  destruct (inherited K) eqn:Hi.
  { rewrite (run_inherited K); [done..|].
    apply Forall_app. split; apply Forall_forall; intros i Hin;
      apply list_elem_of_fmap in Hin as (l & -> & _); exists l; [by left | by right]. }
  rewrite run_app. cbn [fst].
  unfold dict_has. rewrite unsubscribes_remove; [done | by apply run_NoDup | done |].
  rewrite services_count by done.
  unfold dict_has in Hhas.
  destruct (dict_get (_services s) K); [discriminate|].
  destruct listeners; [done|]. cbn -[Z.of_nat Z.add]. f_equal; lia.
Qed.



End ClientSubscriptions.

(** ** The queues of the older build *)

Module LegacyFacts.
Import Legacy.

Lemma set_subscribeTo_same s : set_subscribeTo (_subscribeTo s) s = s.
Proof. by destruct s. Qed.

Lemma set_unsubscribeFrom_same s : set_unsubscribeFrom (_unsubscribeFrom s) s = s.
Proof. by destruct s. Qed.

(** The first loop of the authenticated handler sends the queue in order
    and leaves it empty. *)
Lemma drain_subscribeTo queue s :
  _subscribeTo s = queue →
  for_each queue (λ event,
    bind (assign (λ s, set_subscribeTo (tl (_subscribeTo s)) s))
      (λ _, perform (SocketEmit "subscribe" (JObj [("event", JStr event)]) None))) s =
  (Return tt, set_subscribeTo [] s,
   map (λ event, SocketEmit "subscribe" (JObj [("event", JStr event)]) None) queue).
Proof.
  revert s. induction queue as [|event queue IH]; intros s Hq.
  - simpl. unfold ret. by rewrite <- Hq, set_subscribeTo_same.
  - cbn [for_each map]. unfold bind at 1. unfold bind at 1.
    unfold assign at 1, perform at 1. cbn iota beta.
    rewrite IH by (rewrite Hq; by destruct s).
    by destruct s.
Qed.

Lemma drain_unsubscribeFrom queue s :
  _unsubscribeFrom s = queue →
  for_each queue (λ event,
    bind (assign (λ s, set_unsubscribeFrom (tl (_unsubscribeFrom s)) s))
      (λ _, perform (SocketEmit "unsubscribe" (JObj [("event", JStr event)]) None))) s =
  (Return tt, set_unsubscribeFrom [] s,
   map (λ event, SocketEmit "unsubscribe" (JObj [("event", JStr event)]) None) queue).
Proof.
  revert s. induction queue as [|event queue IH]; intros s Hq.
  - simpl. unfold ret. by rewrite <- Hq, set_unsubscribeFrom_same.
  - cbn [for_each map]. unfold bind at 1. unfold bind at 1.
    unfold assign at 1, perform at 1. cbn iota beta.
    rewrite IH by (rewrite Hq; by destruct s).
    by destruct s.
Qed.

Lemma authenticated_handler_eq s :
  authenticated_handler s =
  (Return tt, set_unsubscribeFrom [] (set_subscribeTo [] s),
   map (λ event, SocketEmit "subscribe" (JObj [("event", JStr event)]) None)
       (_subscribeTo s)
   ++ map (λ event, SocketEmit "unsubscribe" (JObj [("event", JStr event)]) None)
       (_unsubscribeFrom s)
   ++ [BusEmit "connect" []]).
Proof.
  unfold authenticated_handler.
  unfold bind at 1. unfold this at 1. cbn iota beta.
  unfold bind at 1. rewrite drain_subscribeTo by done.
  unfold bind at 1. unfold this at 1. cbn iota beta.
  unfold bind at 1. rewrite drain_unsubscribeFrom by done.
  unfold perform. by destruct s.
Qed.

(** The wildcard handler of the older build republishes under the name
    of the event itself. *)
Lemma legacy_wildcard_handler l event args :
  _setupSocketHandlers "*" (JStr event :: args) l =
  (Return tt, l,
   if existsb (String.eqb event) Client.lifecycle then []
   else [BusEmit event args]).
Proof.
  unfold _setupSocketHandlers.
  change (String.eqb "*" "*") with true. cbv iota.
  unfold arg0, includes. cbn [hd tl]. fold Client.lifecycle.
  by destruct (existsb (String.eqb event) Client.lifecycle).
Qed.

(** Its [subscribe] queues the key once per call while the socket is not
    connected, so two listeners cost two [subscribe] requests. *)
Example legacy_subscribe_queues_every_call :
  requests (snd (run [CallSubscribe "a" 1; CallSubscribe "a" 2;
                      Emit "connect" []; Packet "authenticated" []] fresh)) =
  [("authenticate", JObj [("token", JStr "token123")]);
   ("subscribe", JObj [("event", JStr "a")]);
   ("subscribe", JObj [("event", JStr "a")])].
Proof. reflexivity. Qed.

(** Its registry never counts past one, so the second disposer of a key
    finds no entry and leaves NaN under it. *)
Example legacy_second_disposer_leaves_NaN :
  let r := run [Emit "connect" []; Packet "authenticated" [];
                CallSubscribe "a" 1; CallSubscribe "a" 2;
                CallDisposer "a" 1; CallDisposer "a" 2] fresh in
  _subscriptions (fst r) = [("a", NaN)] ∧
  count_requests "unsubscribe" "event" "a" (snd r) = 1.
Proof. vm_compute. by split. Qed.

(** A key subscribed while connected stays in the registry through a
    disconnect, and the next [authenticated] sends no request for it. *)
Example legacy_registry_after_reconnect :
  let l := fst (run [Emit "connect" []; Packet "authenticated" [];
                     CallSubscribe "a" 1;
                     Emit "disconnect" [JStr "transport close"];
                     Emit "connect" []] fresh) in
  dict_has (_subscriptions l) "a" = true ∧
  requests (effects_of (step (Packet "authenticated" []) l)) = [].
Proof. vm_compute. by split. Qed.

End LegacyFacts.

(** ** Subscribing and the ready transition *)

(** C3 at the failing input: the instance is ready; two [service] calls
    on the key are followed by the two disposers; the key has left the
    registry, and no [unsubscribe] request was sent. *)
Theorem C3_no_unsubscribe_request_when_ready :
  let s := fst (Client.run [Client.Emit "connect" []; Client.Ack 0 (JObj []);
                            Client.CallService "K" 1; Client.CallService "K" 2]
                           Client.fresh) in
  let r := Client.run [Client.CallUnsubscribe "K" 1; Client.CallUnsubscribe "K" 2] s in
  Client.ready s = true ∧
  dict_get (Client._services s) "K" = Some 2%Z ∧
  Client.ready (fst r) = true ∧
  dict_has (Client._services (fst r)) "K" = false ∧
  count_requests "unsubscribe" "service" "K" (snd r) = 0 ∧
  requests (snd r) = [].
Proof. vm_compute. by split_and!. Qed.


(** Under a name that [Object.prototype] defines, [service] finds the
    name [in] the registry, registers nothing, and the ready transition
    sends no [subscribe] for it. *)
Example service_of_inherited_name :
  let calls := Client.run (map (Client.CallService "toString") [1; 2])
                          Client.fresh in
  Client._services (fst calls) = [] ∧
  requests (snd (Client.run [Client.Emit "connect" []; Client.Ack 0 (JObj [])]
                            (fst calls))) =
  [("authenticate", JObj [("token", JStr "token123")])].
Proof. vm_compute. by split. Qed.





(** ** Sync pushes *)


(** A push for a name that [Object.prototype] defines is cached and
    emitted, although the registry has no entry of its own for it. *)
Example sync_for_inherited_name :
  let payload := JObj [("service", JStr "toString"); ("state", JNum 1)] in
  let r := Client.step (Client.Packet "sync" [payload]) Client.fresh in
  Client._stateCache (state_of r) !! "toString" = Some (JNum 1) ∧
  bus_events (effects_of r) =
    [("sync:toString", [JNum 1]); ("internal:sync", [payload])].
Proof. vm_compute. by split. Qed.



(** * Further properties of the current source *)

Module ClientMore.
Import Client ClientNotions.

Lemma counts_positive_set o K n :
  (1 ≤ n)%Z → counts_positive o → counts_positive (dict_set o K n).
Proof. apply (dict_set_Forall (λ m, (1 ≤ m)%Z)). Qed.

Lemma counts_positive_delete_set o K n :
  counts_positive o → counts_positive (dict_delete (dict_set o K n) K).
Proof. apply (dict_delete_set_Forall (λ m, (1 ≤ m)%Z)). Qed.

Lemma counts_positive_get o K n :
  counts_positive o → dict_get o K = Some n → (1 ≤ n)%Z.
Proof. apply (dict_get_Forall (λ m, (1 ≤ m)%Z)). Qed.

Lemma resubscribe_effects_ok token keys p :
  Forall (effect_ok token) (resubscribe_effects keys p).
Proof.
  revert p. induction keys as [|k keys IH]; intros p; simpl; [constructor|].
  constructor; [done|]. constructor; [|apply IH].
  split; [|by eexists]. right. exists k. by left.
Qed.

Lemma resubscribe_promises_allocated keys n ps :
  (∀ q, is_Some (ps !! q) → q < n) →
  ∀ q, is_Some (resubscribe_promises keys n ps !! q) → q < length keys + n.
Proof.
  revert n ps. induction keys as [|k keys IH]; intros n ps Hps q Hq; simpl in *.
  - auto.
  - apply IH in Hq; [lia|].
    intros q' Hq'. destruct (decide (n = q')) as [->|Hne]; [lia|].
    rewrite !lookup_insert_ne in Hq' by done. apply Hps in Hq'. lia.
Qed.

Lemma resubscribe_promises_below keys n ps q :
  q < n → resubscribe_promises keys n ps !! q = ps !! q.
Proof.
  revert n ps. induction keys as [|k keys IH]; intros n ps Hq; simpl; [done|].
  rewrite IH by lia. rewrite !lookup_insert_ne by lia. done.
Qed.

Lemma step_more_skip s : step_more s (Return tt, s, []).
Proof.
  split; unfold state_of, effects_of; cbn [fst snd];
    [constructor | by left | done | done].
Qed.

Lemma step_more_throw s e : step_more s (Throw e, s, []).
Proof.
  split; unfold state_of, effects_of; cbn [fst snd];
    [constructor | by left | done | done].
Qed.

Lemma step_more_ready b s effs :
  Forall (effect_ok (authToken s)) effs →
  step_more s (Return tt, set_ready b s, effs).
Proof. intros H. split; unfold state_of, effects_of; cbn [fst snd];
  [done | by left; destruct s | by intros ?; destruct s | by destruct s]. Qed.

(** A state that differs in the pending promises only, one more handed
    out. *)
Lemma step_more_promise s0 r effs :
  Forall (effect_ok (authToken s0)) effs →
  step_more s0
    (Return tt,
     set_promises (<[next_promise s0 := r]>
                     (<[next_promise s0 := Unhandled]> (promises s0)))
                  (S (next_promise s0)) s0,
     effs).
Proof.
  intros H. split; unfold state_of, effects_of; cbn [fst snd].
  - done.
  - left. by destruct s0.
  - intros Ha. split; [|destruct s0; simpl; lia].
    intros q Hq. destruct s0; simpl in *.
    destruct (decide (next_promise0 = q)) as [->|Hne]; [lia|].
    rewrite !lookup_insert_ne in Hq by done. apply Ha in Hq. simpl in Hq. lia.
  - by destruct s0.
Qed.


Lemma sync_handler_more payload s : step_more s (sync_handler payload s).
Proof.
  destruct (nullish payload) eqn:Hn.
  { rewrite ClientSteps.sync_handler_nullish by done. apply step_more_throw. }
  destruct (dict_in (_services s) (ToString (field payload "service"))) eqn:Hs.
  - rewrite ClientSteps.sync_handler_subscribed by done.
    split; unfold state_of, effects_of; cbn [fst snd].
    + repeat constructor.
    + right. eexists _, _. split; [exact Hs | by destruct s].
    + intros Ha. by destruct s.
    + by destruct s.
  - rewrite ClientSteps.sync_handler_unsubscribed by done.
    split; unfold state_of, effects_of; cbn [fst snd];
      [repeat constructor | by left | done | done].
Qed.

Lemma connect_handler_more s : step_more s (connect_handler s).
Proof.
  rewrite ClientSteps.connect_handler_eq.
  split; unfold state_of, effects_of; cbn [fst snd].
  - constructor; [done|]. constructor; [|constructor].
    split; [by left | by eexists].
  - left. by destruct s.
  - intros Ha. split; [|destruct s; simpl; lia].
    intros q Hq. destruct s; simpl in *.
    destruct (decide (next_promise0 = q)) as [->|Hne]; [lia|].
    rewrite !lookup_insert_ne in Hq by done. apply Ha in Hq. simpl in Hq. lia.
  - by destruct s.
Qed.

Lemma handlers_more event args s :
  step_more s (_setupSocketHandlers event args s).
Proof.
  unfold _setupSocketHandlers, _setupErrorHandlers.
  destruct (String.eqb event "*").
  { destruct (negb _); [|apply step_more_skip].
    split; unfold state_of, effects_of; cbn [fst snd];
      [repeat constructor | by left | done | done]. }
  destruct (String.eqb event "connect"); [apply connect_handler_more|].
  destruct (String.eqb event "disconnect");
    [apply step_more_ready; repeat constructor|].
  destruct (String.eqb event "reconnect_attempt");
    [apply step_more_ready; repeat constructor|].
  destruct (String.eqb event "sync"); [apply sync_handler_more|].
  destruct (String.eqb event "connect_error");
    [apply step_more_ready; repeat constructor|].
  destruct (String.eqb event "connect_timeout");
    [apply step_more_ready; repeat constructor|].
  destruct (String.eqb event "authentication_timeout").
  { destruct (nullish (arg0 args)); [apply step_more_throw|].
    apply step_more_ready; repeat constructor. }
  destruct (String.eqb event "reconnect_failed"); [|apply step_more_skip].
  apply step_more_ready; repeat constructor.
Qed.

Lemma onevent_more event args s : step_more s (onevent event args s).
Proof.
  pose proof (handlers_more event args s) as H.
  unfold onevent, bind.
  destruct (_setupSocketHandlers event args s) as [[[[]|e] s1] effs1]; [|exact H].
  rewrite ClientFacts.wildcard_handler.
  destruct H as [He Hc Hp Hn].
  unfold state_of, effects_of in *; cbn [fst snd] in *.
  split; unfold state_of, effects_of; cbn [fst snd]; try done.
  apply Forall_app. split; [done|].
  destruct (existsb _ _); repeat constructor.
Qed.

Lemma stale_effects_ok token s name listener :
  Forall (effect_ok token) (stale_effects s name listener).
Proof.
  unfold stale_effects. constructor; [done|].
  destruct (truthy _); repeat constructor.
Qed.

Lemma service_more name listener s : step_more s (service name listener s).
Proof.
  rewrite ClientSteps.service_eq.
  destruct (dict_get (_services s) name) as [n|] eqn:Hget;
    [|destruct (inherited name); [|destruct (ready s)]];
    split; unfold state_of, effects_of; cbn [fst snd].
  - apply Forall_app. split; [apply stale_effects_ok | repeat constructor].
  - left. by destruct s.
  - intros Ha. by destruct s.
  - intros Hc. destruct s; simpl in *. apply counts_positive_set; [|done].
    pose proof (counts_positive_get _ _ _ Hc Hget). lia.
  - apply Forall_app. split; [apply stale_effects_ok | repeat constructor].
  - by left.
  - done.
  - done.
  - apply Forall_app. split; [apply stale_effects_ok|].
    constructor; [done|]. constructor; [|constructor].
    split; [|by eexists]. right. exists name. by left.
  - left. by destruct s.
  - intros Ha. split; [|destruct s; simpl; lia].
    intros q Hq. destruct s; simpl in *.
    destruct (decide (next_promise0 = q)) as [->|Hne]; [lia|].
    rewrite !lookup_insert_ne in Hq by done. apply Ha in Hq. simpl in Hq. lia.
  - intros Hc. destruct s; simpl in *. by apply counts_positive_set.
  - apply stale_effects_ok.
  - left. by destruct s.
  - intros Ha. by destruct s.
  - intros Hc. destruct s; simpl in *. by apply counts_positive_set.
Qed.

Lemma unsubscribe_more name listener s : step_more s (unsubscribe name listener s).
Proof.
  rewrite ClientSteps.unsubscribe_eq. cbv zeta.
  destruct (dict_get (_services s) name) as [n|] eqn:Hget.
  2:{ destruct (inherited name);
        split; unfold state_of, effects_of; cbn [fst snd];
        [repeat constructor|by left|done|done
        |repeat constructor|by left|done|done]. }
  destruct (n - 1 <=? 0)%Z eqn:Hle;
    [destruct (truthy (socket_ready s))|];
    split; unfold state_of, effects_of; cbn [fst snd].
  - constructor; [done|]. constructor; [done|].
    constructor; [done|]. constructor; [|constructor].
    split; [|by eexists]. right. exists name. by right.
  - left. by destruct s.
  - intros Ha. split; [|destruct s; simpl; lia].
    intros q Hq. destruct s; simpl in *.
    destruct (decide (next_promise0 = q)) as [->|Hne]; [lia|].
    rewrite !lookup_insert_ne in Hq by done. apply Ha in Hq. simpl in Hq. lia.
  - intros Hc. destruct s; simpl in *. by apply counts_positive_delete_set.
  - repeat constructor.
  - left. by destruct s.
  - intros Ha. by destruct s.
  - intros Hc. destruct s; simpl in *. by apply counts_positive_delete_set.
  - repeat constructor.
  - left. by destruct s.
  - intros Ha. by destruct s.
  - intros Hc. destruct s; simpl in *. apply counts_positive_set; [|done].
    apply Z.leb_gt in Hle. lia.
Qed.

Lemma ack_callback_more p response s : step_more s (ack_callback p response s).
Proof.
  unfold ack_callback.
  destruct (nullish response); [apply step_more_throw|].
  set (s0 := set_promises (delete p (promises s)) (next_promise s) s).
  assert (Hpa : promises_allocated s → ∀ q, is_Some (promises s0 !! q) →
                                            q < next_promise s).
  { intros Ha q Hq. subst s0. destruct s; simpl in *.
    destruct (decide (p = q)) as [->|Hne].
    - rewrite lookup_delete_eq in Hq. by destruct Hq.
    - rewrite lookup_delete_ne in Hq by done. by apply Ha in Hq. }
  assert (Hs0 : ∀ effs, Forall (effect_ok (authToken s)) effs →
                        step_more s (Return tt, s0, effs)).
  { intros effs He. split; unfold state_of, effects_of; cbn [fst snd].
    - done.
    - left. subst s0. by destruct s.
    - intros Ha. split; [|subst s0; by destruct s].
      intros q Hq. specialize (Hpa Ha q Hq). subst s0. by destruct s.
    - subst s0. by destruct s. }
  assert (Hready : ∀ b effs, Forall (effect_ok (authToken s)) effs →
                             step_more s (Return tt, set_ready b s0, effs)).
  { intros b effs He. split; unfold state_of, effects_of; cbn [fst snd].
    - done.
    - left. subst s0. by destruct s.
    - intros Ha. split; [|subst s0; by destruct s].
      intros q Hq. apply (Hpa Ha q). subst s0. by destruct s.
    - subst s0. by destruct s. }
  destruct (truthy (field response "error")).
  - destruct (ClientSteps.settle_cases p (inr (field response "error")) s)
      as [[_ ->]|(r & Hp & Hr)]; [apply step_more_skip|].
    destruct r; simpl in Hr; rewrite Hr.
    + by apply Hs0.
    + rewrite ClientSteps.connect_handler_catch_eq.
      apply Hready. repeat constructor.
    + rewrite ClientSteps.reportError_eq. apply Hs0. repeat constructor.
  - destruct (ClientSteps.settle_cases p (inl response) s)
      as [[_ ->]|(r & Hp & Hr)]; [apply step_more_skip|].
    destruct r; simpl in Hr; rewrite Hr; try by apply Hs0.
    rewrite ClientSteps.connect_handler_resume_eq.
    split; unfold state_of, effects_of; cbn [fst snd].
    + apply Forall_app. split; [repeat constructor|].
      apply Forall_app. split; [|repeat constructor].
      replace (authToken s) with (authToken s0) by (subst s0; by destruct s).
      apply resubscribe_effects_ok.
    + left. subst s0. by destruct s.
    + intros Ha. split.
      * intros q Hq.
        assert (Hq' : is_Some (resubscribe_promises (dict_keys (_services s0))
                                 (next_promise s0) (promises s0) !! q)).
        { subst s0. by destruct s. }
        apply resubscribe_promises_allocated in Hq'.
        -- subst s0. by destruct s.
        -- intros q' Hq''. specialize (Hpa Ha q' Hq''). subst s0. by destruct s.
      * subst s0. destruct s; simpl. lia.
    + subst s0. by destruct s.
Qed.

(** Every step satisfies the further guarantees. *)
Lemma step_step_more i s : step_more s (step i s).
Proof.
  destruct i as [event args|event args|p response|name l|name l|name e
                |event l|event l|event l]; simpl.
  - apply handlers_more.
  - apply onevent_more.
  - apply ack_callback_more.
  - apply service_more.
  - apply unsubscribe_more.
  - split; unfold state_of, effects_of; cbn [fst snd];
      [repeat constructor | by left | done | done].
  - split; unfold state_of, effects_of; cbn [fst snd];
      [repeat constructor | by left | done | done].
  - split; unfold state_of, effects_of; cbn [fst snd];
      [repeat constructor | by left | done | done].
  - split; unfold state_of, effects_of; cbn [fst snd];
      [repeat constructor | by left | done | done].
Qed.

End ClientMore.

Module ClientRuns.
Import Client ClientNotions.

Lemma run_token inputs s : authToken (fst (run inputs s)) = authToken s.
Proof.
  revert s. induction inputs as [|i inputs IH]; intros s; [done|].
  simpl. rewrite IH. apply (ok_token _ _ _ (ClientSteps.step_step_ok i s)).
Qed.

Lemma run_effects_ok inputs s :
  Forall (effect_ok (authToken s)) (snd (run inputs s)).
Proof.
  revert s. induction inputs as [|i inputs IH]; intros s; [constructor|].
  simpl. apply Forall_app. split.
  - apply (more_effects _ _ (ClientMore.step_step_more i s)).
  - rewrite <- (ok_token _ _ _ (ClientSteps.step_step_ok i s)). apply IH.
Qed.

Lemma effects_ok_requests token effs :
  Forall (effect_ok token) effs → Forall (allowed_request token) (requests effs).
Proof.
  induction 1 as [|e effs He _ IH]; [constructor|].
  destruct e; simpl; try done. constructor; [apply He | done].
Qed.

Lemma reachable_token s : reachable s → authToken s ≠ EmptyString.
Proof.
  induction 1 as [url token s Hnew | s i Hs IH].
  - unfold constructor in Hnew.
    destruct url; [discriminate|]. destruct token; [discriminate|].
    by injection Hnew as <-.
  - by rewrite (ok_token _ _ _ (ClientSteps.step_step_ok i s)).
Qed.

Lemma reachable_more s :
  reachable s → promises_allocated s ∧ counts_positive (_services s).
Proof.
  induction 1 as [url token s Hnew | s i Hs [IHp IHc]].
  - unfold constructor in Hnew.
    destruct url; [discriminate|]. destruct token; [discriminate|].
    injection Hnew as <-. split; [|constructor].
    intros p Hp. simpl in Hp. rewrite lookup_empty in Hp. by destruct Hp.
  - destruct (ClientMore.step_step_more i s) as [_ _ Hp Hc].
    split; [by apply Hp | by apply Hc].
Qed.

Lemma run_cache_kept inputs s name :
  is_Some (_stateCache s !! name) →
  is_Some (_stateCache (fst (run inputs s)) !! name).
Proof.
  revert s. induction inputs as [|i inputs IH]; intros s Hs; [done|].
  simpl. apply IH.
  destruct (more_cache _ _ (ClientMore.step_step_more i s))
    as [->|(k & v & _ & ->)]; [done|].
  destruct (decide (k = name)) as [->|Hne].
  - rewrite lookup_insert_eq. by eexists.
  - by rewrite lookup_insert_ne.
Qed.

(** An acknowledgement for a promise that is not pending does nothing. *)
Lemma ack_not_pending p response s :
  promises s !! p = None → nullish response = false →
  step (Ack p response) s = (Return tt, s, []).
Proof.
  intros Hp Hn. cbn [step]. unfold ack_callback. rewrite Hn.
  destruct (truthy (field response "error")).
  - destruct (ClientSteps.settle_cases p (inr (field response "error")) s)
      as [[_ ->]|(r & Hr & _)]; [done | congruence].
  - destruct (ClientSteps.settle_cases p (inl response) s)
      as [[_ ->]|(r & Hr & _)]; [done | congruence].
Qed.

(** Once acknowledged, a promise is no longer pending. *)
Lemma ack_settles p response s :
  promises_allocated s → nullish response = false →
  promises (state_of (step (Ack p response) s)) !! p = None.
Proof.
  intros Ha Hn. cbn [step]. unfold ack_callback. rewrite Hn.
  set (s0 := set_promises (delete p (promises s)) (next_promise s) s).
  assert (Hs0 : promises s0 !! p = None).
  { subst s0. destruct s; simpl. apply lookup_delete_eq. }
  assert (Hready : ∀ b, promises (set_ready b s0) !! p = None).
  { intros b. subst s0. destruct s; simpl. apply lookup_delete_eq. }
  destruct (truthy (field response "error")).
  - destruct (ClientSteps.settle_cases p (inr (field response "error")) s)
      as [[Hnone ->]|(r & Hp & Hr)]; [done|].
    destruct r; simpl in Hr; rewrite Hr.
    + exact Hs0.
    + rewrite ClientSteps.connect_handler_catch_eq. apply Hready.
    + rewrite ClientSteps.reportError_eq. exact Hs0.
  - destruct (ClientSteps.settle_cases p (inl response) s)
      as [[Hnone ->]|(r & Hp & Hr)]; [done|].
    destruct r; simpl in Hr; rewrite Hr; [exact Hs0 | | exact Hs0].
    rewrite ClientSteps.connect_handler_resume_eq.
    unfold state_of; cbn [fst snd].
    assert (Hlt : p < next_promise s) by (apply Ha; by rewrite Hp).
    transitivity (resubscribe_promises (dict_keys (_services s0))
                    (next_promise s0) (promises s0) !! p).
    + subst s0. by destruct s.
    + rewrite ClientMore.resubscribe_promises_below; [done|].
      subst s0. by destruct s.
Qed.


(** A disposer for a key that is not [in] the registry throws. *)
Lemma unsubscribe_absent K l s :
  dict_in (_services s) K = false →
  step (CallUnsubscribe K l) s =
  (Throw TypeError, s,
   [Log log_debug [JStr "listener unsubscribed from service"; JStr K];
    BusRemoveListener ("sync:" +:+ K) (Listener l)]).
Proof.
  intros Hin. apply dict_in_false in Hin as [Hhas Hi].
  cbn [step]. rewrite ClientSteps.unsubscribe_eq. cbv zeta.
  unfold dict_has in Hhas. destruct (dict_get (_services s) K); [done|].
  by rewrite Hi.
Qed.

End ClientRuns.

(** ** The authentication exchange *)

Module ClientAuth.
Import Client ClientNotions.

Lemma authenticate_requests_app a b :
  authenticate_requests (a ++ b) = authenticate_requests a ++ authenticate_requests b.
Proof.
  induction a as [|e a IH]; simpl; [done|].
  destruct e as [| event data [p|] | | | | | | |]; simpl; try done.
  destruct (String.eqb event "authenticate"); simpl; by rewrite IH.
Qed.

Lemma authenticate_requests_resubscribe keys p :
  authenticate_requests (resubscribe_effects keys p) = [].
Proof. revert p. induction keys as [|k keys IH]; intros p; simpl; auto. Qed.

Lemma authenticate_requests_stale s name listener :
  authenticate_requests (stale_effects s name listener) = [].
Proof. unfold stale_effects. by destruct (truthy _). Qed.

(** The input answers a waiting request exactly when it resolves the
    promise the connect handler waits on. *)
Lemma answers_authenticates s pending i :
  awaits s pending → answers pending i = authenticates s i.
Proof.
  intros Hw. destruct i as [| |p response| | | | | |]; try done.
  unfold answers, authenticates. f_equal.
  destruct (existsb (Nat.eqb p) pending) eqn:E.
  - apply existsb_exists in E as (q & Hq & Heq).
    apply Nat.eqb_eq in Heq. subst q.
    apply list_elem_of_In in Hq. apply Hw in Hq. by rewrite Hq.
  - destruct (promises s !! p) as [[]|] eqn:Hp; try done.
    apply Hw in Hp. apply list_elem_of_In in Hp.
    assert (existsb (Nat.eqb p) pending = true); [|congruence].
    apply existsb_exists. exists p. split; [done | apply Nat.eqb_refl].
Qed.

(** A step that leaves the pending promises alone. *)
Lemma awaits_same s s' pending :
  promises s' = promises s → awaits s pending → awaits s' (pending ++ []).
Proof. intros Hp Hw p. rewrite app_nil_r, Hp. apply Hw. Qed.

(** A step that hands out one promise, for a request other than
    [authenticate]. *)
Lemma awaits_other s s' pending :
  promises_allocated s →
  promises s' = <[next_promise s := CatchReportError]>
                  (<[next_promise s := Unhandled]> (promises s)) →
  awaits s pending → awaits s' (pending ++ []).
Proof.
  intros Ha Hp Hw p. rewrite app_nil_r, Hp, <- (Hw p).
  destruct (decide (next_promise s = p)) as [<-|Hne].
  - rewrite lookup_insert_eq. split; [done|].
    intros H. assert (next_promise s < next_promise s); [|lia].
    apply Ha. by rewrite H.
  - by rewrite !lookup_insert_ne.
Qed.

(** The connect handler adds its request. *)
Lemma awaits_connect s pending :
  promises_allocated s → awaits s pending →
  awaits (state_of (connect_handler s))
         (pending ++ authenticate_requests (effects_of (connect_handler s))).
Proof.
  intros Ha Hw p. rewrite ClientSteps.connect_handler_eq.
  unfold state_of, effects_of; cbn [fst snd authenticate_requests].
  change (String.eqb "authenticate" "authenticate") with true. cbv iota.
  rewrite elem_of_app, list_elem_of_singleton, <- (Hw p).
  destruct s as [tok rdy svc cache sr ps np]; simpl in *.
  destruct (decide (np = p)) as [<-|Hne].
  - rewrite lookup_insert_eq. split; [by right | done].
  - rewrite !lookup_insert_ne by done. split; [by left|].
    intros [H|H]; [done | congruence].
Qed.

Lemma awaits_handlers event args s pending :
  promises_allocated s → awaits s pending →
  awaits (state_of (_setupSocketHandlers event args s))
         (pending ++ authenticate_requests
                       (effects_of (_setupSocketHandlers event args s))).
Proof.
  intros Ha Hw. unfold _setupSocketHandlers, _setupErrorHandlers.
  destruct (String.eqb event "*").
  { destruct (negb _); by apply (awaits_same s). }
  destruct (String.eqb event "connect"); [by apply awaits_connect|].
  destruct (String.eqb event "disconnect"); [apply (awaits_same s); by destruct s|].
  destruct (String.eqb event "reconnect_attempt");
    [apply (awaits_same s); by destruct s|].
  destruct (String.eqb event "sync").
  { destruct (nullish (arg0 args)) eqn:Hn.
    { rewrite ClientSteps.sync_handler_nullish by done. by apply (awaits_same s). }
    destruct (dict_in (_services s) (ToString (field (arg0 args) "service"))) eqn:Hs.
    - rewrite ClientSteps.sync_handler_subscribed by done.
      apply (awaits_same s); by destruct s.
    - rewrite ClientSteps.sync_handler_unsubscribed by done.
      by apply (awaits_same s). }
  destruct (String.eqb event "connect_error");
    [apply (awaits_same s); by destruct s|].
  destruct (String.eqb event "connect_timeout");
    [apply (awaits_same s); by destruct s|].
  destruct (String.eqb event "authentication_timeout").
  { destruct (nullish (arg0 args)); apply (awaits_same s); by destruct s. }
  destruct (String.eqb event "reconnect_failed");
    apply (awaits_same s); by destruct s.
Qed.

Lemma awaits_onevent event args s pending :
  promises_allocated s → awaits s pending →
  awaits (state_of (onevent event args s))
         (pending ++ authenticate_requests (effects_of (onevent event args s))).
Proof.
  intros Ha Hw. pose proof (awaits_handlers event args s pending Ha Hw) as H.
  unfold onevent, bind.
  destruct (_setupSocketHandlers event args s) as [[[[]|e] s1] effs1]; [|exact H].
  rewrite ClientFacts.wildcard_handler.
  unfold state_of, effects_of in *; cbn [fst snd] in *.
  rewrite authenticate_requests_app.
  destruct (existsb _ _); simpl; by rewrite app_nil_r.
Qed.

(** The loop that subscribes again leaves the promises of the connect
    handler as they are. *)
Lemma resubscribe_promises_awaits keys n ps q :
  (∀ q, is_Some (ps !! q) → q < n) →
  resubscribe_promises keys n ps !! q = Some AwaitAuthenticate
  ↔ ps !! q = Some AwaitAuthenticate.
Proof.
  revert n ps. induction keys as [|k keys IH]; intros n ps Hps; simpl; [done|].
  rewrite IH.
  - destruct (decide (n = q)) as [<-|Hne].
    + rewrite lookup_insert_eq. split; [done|].
      intros H. assert (n < n); [|lia]. apply Hps. by rewrite H.
    + by rewrite !lookup_insert_ne.
  - intros q' Hq'. destruct (decide (n = q')) as [<-|Hne]; [lia|].
    rewrite !lookup_insert_ne in Hq' by done. apply Hps in Hq'. lia.
Qed.

(** An answer takes its request off the list. *)
Lemma awaits_delete s p pending :
  awaits s pending →
  ∀ q, delete p (promises s) !! q = Some AwaitAuthenticate
       ↔ q ∈ filter (λ q, negb (Nat.eqb q p)) pending ++ [].
Proof.
  intros Hw q. rewrite app_nil_r, list_elem_of_filter, <- (Hw q).
  destruct (decide (p = q)) as [<-|Hne].
  - rewrite lookup_delete_eq, Nat.eqb_refl. simpl. split; [done | by intros [? ?]].
  - rewrite lookup_delete_ne by done.
    assert (Nat.eqb q p = false) as -> by (apply Nat.eqb_neq; congruence).
    simpl. split; [by split | by intros [_ ?]].
Qed.

Lemma awaits_ack p response s pending :
  promises_allocated s → awaits s pending →
  awaits (state_of (ack_callback p response s))
         (awaiting pending (Ack p response) (effects_of (ack_callback p response s))).
Proof.
  intros Ha Hw. unfold ack_callback, awaiting.
  destruct (nullish response); [by apply (awaits_same s)|].
  set (s0 := set_promises (delete p (promises s)) (next_promise s) s).
  assert (Hs0 : ∀ b q, promises (set_ready b s0) !! q = Some AwaitAuthenticate
                       ↔ q ∈ filter (λ q, negb (Nat.eqb q p)) pending ++ []).
  { intros b q. rewrite <- (awaits_delete s p pending Hw). subst s0. by destruct s. }
  assert (Hs0' : ∀ q, promises s0 !! q = Some AwaitAuthenticate
                      ↔ q ∈ filter (λ q, negb (Nat.eqb q p)) pending ++ []).
  { intros q. rewrite <- (awaits_delete s p pending Hw). subst s0. by destruct s. }
  assert (Hnone : promises s !! p = None →
                  ∀ q, promises s !! q = Some AwaitAuthenticate
                       ↔ q ∈ filter (λ q, negb (Nat.eqb q p)) pending ++ []).
  { intros Hp q. rewrite <- (awaits_delete s p pending Hw).
    by rewrite delete_id. }
  assert (Hresume : ∀ response0 q,
            promises (state_of (connect_handler_resume response0 s0)) !! q
            = Some AwaitAuthenticate
            ↔ q ∈ filter (λ q, negb (Nat.eqb q p)) pending
                  ++ authenticate_requests
                       (effects_of (connect_handler_resume response0 s0))).
  { intros response0 q. rewrite ClientSteps.connect_handler_resume_eq.
    unfold state_of, effects_of; cbn [fst snd].
    rewrite !authenticate_requests_app, authenticate_requests_resubscribe.
    cbn [authenticate_requests app]. rewrite <- Hs0'.
    transitivity (resubscribe_promises (dict_keys (_services s0))
                    (next_promise s0) (promises s0) !! q = Some AwaitAuthenticate).
    { subst s0. by destruct s. }
    apply resubscribe_promises_awaits.
    intros q' Hq'. subst s0. destruct s; simpl in *.
    destruct (decide (p = q')) as [<-|Hne].
    - rewrite lookup_delete_eq in Hq'. by destruct Hq'.
    - rewrite lookup_delete_ne in Hq' by done. by apply Ha in Hq'. }
  destruct (truthy (field response "error")).
  - destruct (ClientSteps.settle_cases p (inr (field response "error")) s)
      as [[Hp ->]|(r & Hp & Hr)]; [intros q; by apply Hnone|].
    destruct r; simpl in Hr; rewrite Hr; intros q.
    + apply Hs0'.
    + rewrite ClientSteps.connect_handler_catch_eq. apply Hs0.
    + rewrite ClientSteps.reportError_eq. apply Hs0'.
  - destruct (ClientSteps.settle_cases p (inl response) s)
      as [[Hp ->]|(r & Hp & Hr)]; [intros q; by apply Hnone|].
    destruct r; simpl in Hr; rewrite Hr; intros q;
      [apply Hs0' | | apply Hs0'].
    apply Hresume.
Qed.

Lemma awaits_service name l s pending :
  promises_allocated s → awaits s pending →
  awaits (state_of (service name l s))
         (pending ++ authenticate_requests (effects_of (service name l s))).
Proof.
  intros Ha Hw. rewrite ClientSteps.service_eq.
  destruct (dict_get (_services s) name);
    [|destruct (inherited name); [|destruct (ready s)]];
    unfold state_of, effects_of; cbn [fst snd];
    rewrite ?authenticate_requests_app, authenticate_requests_stale;
    cbn [authenticate_requests app].
  - apply (awaits_same s); by destruct s.
  - by apply (awaits_same s).
  - apply (awaits_other s); [done | by destruct s | done].
  - apply (awaits_same s); by destruct s.
Qed.

Lemma awaits_unsubscribe name l s pending :
  promises_allocated s → awaits s pending →
  awaits (state_of (unsubscribe name l s))
         (pending ++ authenticate_requests (effects_of (unsubscribe name l s))).
Proof.
  intros Ha Hw. rewrite ClientSteps.unsubscribe_eq. cbv zeta.
  destruct (dict_get (_services s) name);
    [destruct (_ <=? _)%Z; [destruct (truthy (socket_ready s))|]
    |destruct (inherited name)];
    unfold state_of, effects_of; cbn [fst snd authenticate_requests app].
  - apply (awaits_other s); [done | by destruct s | done].
  - apply (awaits_same s); by destruct s.
  - apply (awaits_same s); by destruct s.
  - by apply (awaits_same s).
  - by apply (awaits_same s).
Qed.

(** Every step keeps the list of waiting requests in line with the
    promises. *)
Lemma step_awaits i s pending :
  promises_allocated s → awaits s pending →
  awaits (state_of (step i s)) (awaiting pending i (effects_of (step i s))).
Proof.
  intros Ha Hw.
  destruct i as [event args|event args|p response|name l|name l|name e
                |event l|event l|event l]; cbn [step].
  - by apply awaits_handlers.
  - by apply awaits_onevent.
  - by apply awaits_ack.
  - by apply awaits_service.
  - by apply awaits_unsubscribe.
  - by apply (awaits_same s).
  - by apply (awaits_same s).
  - by apply (awaits_same s).
  - by apply (awaits_same s).
Qed.

Lemma run_awaits inputs s pending :
  promises_allocated s → awaits s pending →
  promises_allocated (fst (run inputs s))
  ∧ awaits (fst (run inputs s)) (waiting inputs s pending).
Proof.
  revert s pending. induction inputs as [|i inputs IH]; intros s pending Ha Hw;
    [done|].
  cbn [run waiting fst]. apply IH.
  - by apply (more_promises _ _ (ClientMore.step_step_more i s)).
  - by apply step_awaits.
Qed.

Lemma run_answered inputs s pending :
  promises_allocated s → awaits s pending →
  count_bus "connect" (snd (run inputs s)) = answered inputs s pending.
Proof.
  revert s pending. induction inputs as [|i inputs IH]; intros s pending Ha Hw;
    [done|].
  cbn [run answered snd]. rewrite count_bus_app.
  rewrite (ok_connect _ _ _ (ClientSteps.step_step_ok i s)).
  rewrite (answers_authenticates s pending i Hw). f_equal.
  apply IH.
  - by apply (more_promises _ _ (ClientMore.step_step_more i s)).
  - by apply step_awaits.
Qed.

Lemma constructor_awaits url token s :
  constructor url token = Return s →
  authToken s = token ∧ promises_allocated s ∧ awaits s [].
Proof.
  unfold constructor. destruct url; [discriminate|]. destruct token; [discriminate|].
  intros [= <-]. split_and!; [done | |].
  - intros p Hp. simpl in Hp. rewrite lookup_empty in Hp. by destruct Hp.
  - intros p. simpl. rewrite lookup_empty. split; [done | intros H; inversion H].
Qed.

End ClientAuth.

(** C1: on an instance made by the constructor, whatever has happened to
    it since, the transport's own [connect] puts nothing on the bus: it
    leaves the instance not ready and sends the [authenticate] request
    with the constructor's token; when the server then answers that
    request without error, that step emits the normalized [connect],
    once, and the instance is ready.  Along every run a step emits
    [connect] exactly when its input is the server's first readable answer,
    without error, to an [authenticate] request sent earlier in the run,
    and then once; so the number of [connect] events of a run is the
    number of such answers. *)
Theorem C1_connect_only_after_authentication
  (url token : string) (s : Client.client) (inputs : list Client.input) :
  Client.constructor url token = Return s →
  (∀ pre args,
     let s1 := fst (Client.run pre s) in
     let r := Client.step (Client.Emit "connect" args) s1 in
     effects_of r =
       [Log log_debug [JStr "auth:start"];
        SocketEmit "authenticate" (JObj [("token", JStr token)])
                   (Some (Client.next_promise s1))] ∧
     bus_events (effects_of r) = [] ∧
     Client.ready (state_of r) = false ∧
     ∀ response,
       nullish response = false →
       truthy (field response "error") = false →
       let r' := Client.step (Client.Ack (Client.next_promise s1) response)
                             (state_of r) in
       bus_events (effects_of r') = [("connect", [])] ∧
       Client.ready (state_of r') = true) ∧
  (∀ pre i,
     count_bus "connect" (effects_of (Client.step i (fst (Client.run pre s)))) =
     if Client.answers (Client.waiting pre s []) i then 1 else 0) ∧
  count_bus "connect" (snd (Client.run inputs s)) = Client.answered inputs s [].
Proof.
  intros Hnew.
  destruct (ClientAuth.constructor_awaits url token s Hnew) as (Htok & Ha & Hw).
  split_and!.
  - intros pre args s1 r.
    assert (Ht : Client.authToken s1 = token)
      by (subst s1; by rewrite ClientRuns.run_token).
    assert (Hr : r = Client.connect_handler s1) by done.
    split_and!.
    { by rewrite Hr, ClientSteps.connect_handler_eq, Ht. }
    { by rewrite Hr, ClientSteps.connect_handler_eq. }
    { rewrite Hr, ClientSteps.connect_handler_eq. by destruct s1. }
    intros response Hn Herr r'. subst r' r.
    rewrite (connect_then_ack s1 args _ response eq_refl Hn).
    cbv zeta. rewrite Herr, ClientSteps.connect_handler_resume_eq.
    unfold state_of, effects_of; cbn [fst snd].
    rewrite !bus_events_app, ClientSteps.resubscribe_bus_events.
    split; [done | by destruct s1].
  - intros pre i.
    destruct (ClientAuth.run_awaits pre s [] Ha Hw) as [Ha' Hw'].
    rewrite (Client.ok_connect _ _ _ (ClientSteps.step_step_ok i _)).
    by rewrite (ClientAuth.answers_authenticates _ _ i Hw').
  - by apply ClientAuth.run_answered.
Qed.

Lemma C1_witness :
  count_bus "connect"
    (snd (Client.run [Client.Emit "connect" []; Client.Ack 0 (JObj []);
                      Client.Ack 0 (JObj []); Client.Packet "connect" [];
                      Client.Emit "connect" [];
                      Client.Ack 2 (JObj [("error", JStr "jwt expired")])]
                     Client.fresh)) = 1.
Proof.
  exact (proj2 (proj2 (C1_connect_only_after_authentication
                         "wss://host" "token123" Client.fresh
                         [Client.Emit "connect" []; Client.Ack 0 (JObj []);
                          Client.Ack 0 (JObj []); Client.Packet "connect" [];
                          Client.Emit "connect" [];
                          Client.Ack 2 (JObj [("error", JStr "jwt expired")])]
                         eq_refl))).
Defined.

(** ** What the current source sends and keeps *)

(** Every request that the socket handlers, [service] and its disposer
    send from a constructed instance is an [authenticate] carrying the
    token given to the constructor, which is not empty and never changes,
    or a [subscribe] or [unsubscribe] for a service name. *)
Theorem requests_follow_the_protocol
  (s : Client.client) (inputs : list Client.input) :
  Client.reachable s →
  Client.authToken s ≠ EmptyString ∧
  Client.authToken (fst (Client.run inputs s)) = Client.authToken s ∧
  Forall (ClientNotions.allowed_request (Client.authToken s))
         (requests (snd (Client.run inputs s))).
Proof.
  intros Hreach. split_and!.
  - by apply ClientRuns.reachable_token.
  - apply ClientRuns.run_token.
  - apply ClientRuns.effects_ok_requests, ClientRuns.run_effects_ok.
Qed.

Lemma requests_follow_the_protocol_witness :
  Forall (ClientNotions.allowed_request "token123")
    (requests (snd (Client.run [Client.CallService "lights" 1;
                                Client.Emit "connect" [];
                                Client.Ack 0 (JObj [])] Client.fresh))).
Proof.
  apply (requests_follow_the_protocol Client.fresh
           [Client.CallService "lights" 1; Client.Emit "connect" [];
            Client.Ack 0 (JObj [])]).
  by apply (Client.reachable_new "wss://host" "token123").
Defined.



(** A promise is settled once: on a constructed instance, after the
    acknowledgement of a request a second acknowledgement of the same
    request changes nothing and has no effect. *)
Theorem acknowledgement_settles_once
  (s : Client.client) (p : nat) (response response' : jsval) :
  Client.reachable s →
  nullish response = false →
  nullish response' = false →
  let s1 := state_of (Client.step (Client.Ack p response) s) in
  Client.step (Client.Ack p response') s1 = (Return tt, s1, []).
Proof.
  intros Hreach Hn Hn' s1. apply ClientRuns.ack_not_pending; [|done].
  subst s1. apply ClientRuns.ack_settles; [|done].
  by apply ClientRuns.reachable_more.
Qed.

Lemma acknowledgement_settles_once_witness :
  let s := state_of (Client.step (Client.Emit "connect" []) Client.fresh) in
  let s1 := state_of (Client.step (Client.Ack 0 (JObj [])) s) in
  Client.step (Client.Ack 0 (JObj [])) s1 = (Return tt, s1, []).
Proof.
  intros s.
  apply (acknowledgement_settles_once s 0 (JObj []) (JObj [])).
  - apply Client.reachable_step.
    by apply (Client.reachable_new "wss://host" "token123").
  - reflexivity.
  - reflexivity.
Defined.



(** A disposer called once more than [service] was called, for a key
    that was not [in] the registry before, throws a TypeError, after
    asking the bus to remove the listener, and changes nothing. *)
Theorem disposer_called_once_too_often
  (s : Client.client) (K : string) (listeners : list nat) (l : nat) :
  Client.reachable s →
  dict_in (Client._services s) K = false →
  let s1 := fst (Client.run (map (Client.CallService K) listeners
                             ++ map (Client.CallUnsubscribe K) listeners) s) in
  Client.step (Client.CallUnsubscribe K l) s1 =
  (Throw TypeError, s1,
   [Log log_debug [JStr "listener unsubscribed from service"; JStr K];
    BusRemoveListener ("sync:" +:+ K) (Listener l)]).
Proof.
  intros Hreach Hin s1. apply ClientRuns.unsubscribe_absent.
  subst s1. destruct listeners as [|l0 listeners]; [done|].
  apply dict_in_false in Hin as [Hhas Hi].
  apply dict_in_false. split; [|done].
  by apply (ClientSubscriptions.service_unsubscribe_balanced K (l0 :: listeners) s).
Qed.

(** Under a name that [Object.prototype] defines the disposer finds the
    inherited value instead and returns. *)
Example disposer_of_inherited_name :
  Client.step (Client.CallUnsubscribe "toString" 1) Client.fresh =
  (Return tt, Client.fresh,
   [Log log_debug [JStr "listener unsubscribed from service"; JStr "toString"];
    BusRemoveListener "sync:toString" (Listener 1)]).
Proof. reflexivity. Qed.

Lemma disposer_called_once_too_often_witness :
  let s1 := fst (Client.run [Client.CallService "lights" 1;
                             Client.CallUnsubscribe "lights" 1] Client.fresh) in
  Client.step (Client.CallUnsubscribe "lights" 1) s1 =
  (Throw TypeError, s1,
   [Log log_debug [JStr "listener unsubscribed from service"; JStr "lights"];
    BusRemoveListener "sync:lights" (Listener 1)]).
Proof.
  apply (disposer_called_once_too_often Client.fresh "lights" [1] 1).
  - by apply (Client.reachable_new "wss://host" "token123").
  - reflexivity.
Defined.

(** ** The state cache *)

(** A [sync] packet for a service of the registry stores the pushed state
    under the service, whatever the state is, leaves the other entries and
    the registry alone, and emits [sync:<service>] with the state and then
    [internal:sync] with the packet.  Afterwards the [state] getter gives
    the state when it is truthy and null otherwise, the [ready] getter is
    false only for a null state, and a later [service] call for the
    service hands the cached state to its listener at once when it is
    truthy, and not at all otherwise. *)
Theorem sync_push_is_cached_and_replayed
  (s : Client.client) (payload : jsval) (name : string) (l : nat) :
  field payload "service" = JStr name →
  dict_has (Client._services s) name = true →
  let state := field payload "state" in
  let r := Client.step (Client.Packet "sync" [payload]) s in
  let s1 := state_of r in
  bus_events (effects_of r) =
    [("sync:" +:+ name, [state]); ("internal:sync", [payload])] ∧
  Client._stateCache s1 !! name = Some state ∧
  (∀ other, other ≠ name →
            Client._stateCache s1 !! other = Client._stateCache s !! other) ∧
  Client._services s1 = Client._services s ∧
  Client.view_state s1 name = (if truthy state then state else JNull) ∧
  Client.view_ready s1 name = negb (is_null state) ∧
  calls (effects_of (Client.step (Client.CallService name l) s1)) =
    if truthy state then [(l, state)] else [].
Proof.
  intros Hname Hhas state r s1.
  assert (Hn : nullish payload = false) by (by destruct payload).
  assert (Hr : r = (Return tt,
                    Client.set_stateCache (<[name := state]> (Client._stateCache s)) s,
                    [Log log_debug [JStr "sync â€“ service:"; JStr name;
                                    JStr "state:"; state];
                     BusEmit ("sync:" +:+ name) [state];
                     BusEmit "internal:sync" [payload]])).
  { subst r. cbn [Client.step]. unfold Client.onevent, bind.
    change (Client._setupSocketHandlers "sync" [payload] s)
      with (Client.sync_handler payload s).
    rewrite ClientSteps.sync_handler_subscribed
      by (rewrite ?Hname; try apply dict_in_own; done).
    rewrite ClientFacts.wildcard_handler. by rewrite Hname. }
  assert (Hcache : Client._stateCache s1 = <[name := state]> (Client._stateCache s)).
  { subst s1. rewrite Hr. by destruct s. }
  assert (Hcached : Client.cached s1 name = state).
  { unfold Client.cached. by rewrite Hcache, lookup_insert_eq. }
  split_and!.
  - by rewrite Hr.
  - by rewrite Hcache, lookup_insert_eq.
  - intros other Hne. by rewrite Hcache, lookup_insert_ne.
  - subst s1. rewrite Hr. by destruct s.
  - unfold Client.view_state. by rewrite Hcached.
  - unfold Client.view_ready. by rewrite Hcached.
  - cbn [Client.step]. rewrite ClientSteps.service_eq.
    assert (Hs1 : dict_has (Client._services s1) name = true).
    { subst s1. rewrite Hr. by destruct s. }
    unfold dict_has in Hs1.
    destruct (dict_get (Client._services s1) name); [|discriminate].
    unfold effects_of; cbn [snd]. unfold Client.stale_effects.
    rewrite Hcached. by destruct (truthy state).
Qed.

Lemma sync_push_is_cached_and_replayed_witness :
  let s := state_of (Client.step (Client.CallService "lights" 1) Client.fresh) in
  let payload := JObj [("service", JStr "lights"); ("state", JNum 0)] in
  let s1 := state_of (Client.step (Client.Packet "sync" [payload]) s) in
  Client._stateCache s1 !! "lights" = Some (JNum 0) ∧
  Client.view_state s1 "lights" = JNull ∧
  calls (effects_of (Client.step (Client.CallService "lights" 2) s1)) = [].
Proof.
  intros s payload s1.
  destruct (sync_push_is_cached_and_replayed s payload "lights" 2
              eq_refl eq_refl) as (_ & H1 & _ & _ & H2 & _ & H3).
  exact (conj H1 (conj H2 H3)).
Defined.

(** The state cache never loses an entry: a service that has a cached
    state keeps one through every run, disconnects and disposals
    included. *)
Theorem cached_state_is_never_dropped
  (s : Client.client) (inputs : list Client.input) (name : string) :
  is_Some (Client._stateCache s !! name) →
  is_Some (Client._stateCache (fst (Client.run inputs s)) !! name).
Proof. apply ClientRuns.run_cache_kept. Qed.

Lemma cached_state_is_never_dropped_witness :
  let s := fst (Client.run [Client.CallService "lights" 1;
                            Client.Packet "sync"
                              [JObj [("service", JStr "lights"); ("state", JNum 7)]]]
                           Client.fresh) in
  is_Some (Client._stateCache
             (fst (Client.run [Client.CallUnsubscribe "lights" 1;
                               Client.Emit "disconnect" [JStr "transport close"]] s))
           !! "lights").
Proof.
  intros s.
  apply (cached_state_is_never_dropped s
           [Client.CallUnsubscribe "lights" 1;
            Client.Emit "disconnect" [JStr "transport close"]] "lights").
  by exists (JNum 7).
Defined.

(** ** Failures *)



(** A [sync] or [authentication_timeout] packet without a payload makes
    its handler throw a TypeError before it does anything: the instance is
    unchanged (still ready if it was), and since the exception ends the
    dispatch the packet does not reach the wildcard handler either. *)
Theorem packet_without_payload_is_dropped
  (s : Client.client) (event : string) (args : list jsval) :
  event = "sync" ∨ event = "authentication_timeout" →
  nullish (arg0 args) = true →
  Client.step (Client.Packet event args) s = (Throw TypeError, s, []).
Proof.
  intros [-> | ->] Hn; cbn [Client.step]; unfold Client.onevent, bind.
  - change (Client._setupSocketHandlers "sync" args s)
      with (Client.sync_handler (arg0 args) s).
    by rewrite ClientSteps.sync_handler_nullish.
  - unfold Client._setupSocketHandlers, Client._setupErrorHandlers. simpl.
    by rewrite Hn.
Qed.

Lemma packet_without_payload_is_dropped_witness :
  Client.step (Client.Packet "sync" []) Client.fresh
  = (Throw TypeError, Client.fresh, []).
Proof.
  apply (packet_without_payload_is_dropped Client.fresh "sync" []);
    [by left | reflexivity].
Defined.

(** ** The registry *)

(** In the registry of a constructed instance no key occurs twice and
    every key has at least one listener: a key is in the registry exactly
    when its count is at least 1. *)
Theorem registry_counts_are_positive (s : Client.client) (K : string) :
  Client.reachable s →
  NoDup (dict_keys (Client._services s)) ∧
  ClientNotions.counts_positive (Client._services s) ∧
  (dict_has (Client._services s) K = true ↔
   ∃ n, dict_get (Client._services s) K = Some n ∧ (1 ≤ n)%Z).
Proof.
  intros Hreach.
  destruct (ClientSteps.reachable_invariant s Hreach) as [Hnd _].
  destruct (ClientRuns.reachable_more s Hreach) as [_ Hc].
  split_and!; [done | done |].
  unfold dict_has. split.
  - destruct (dict_get (Client._services s) K) as [n|] eqn:Hget; [|discriminate].
    intros _. exists n. split; [done|].
    exact (ClientMore.counts_positive_get _ K n Hc Hget).
  - by intros (n & -> & _).
Qed.

Lemma registry_counts_are_positive_witness :
  let s := fst (Client.run [Client.CallService "lights" 1;
                            Client.CallService "lights" 2;
                            Client.CallUnsubscribe "lights" 1] Client.fresh) in
  ClientNotions.counts_positive (Client._services s).
Proof.
  intros s.
  apply (registry_counts_are_positive s "lights").
  subst s. cbn [Client.run fst].
  do 3 apply Client.reachable_step.
  by apply (Client.reachable_new "wss://host" "token123").
Defined.

(** Reference counting in the current source: on a constructed instance,
    [N >= 1] calls of [service] on a key that is not in the registry
    followed by the [N] disposers leave the key out of the registry again,
    and none of these calls sends an [unsubscribe] request, whether the
    instance is ready or not. *)
Theorem service_calls_and_disposers_balance
  (s : Client.client) (K : string) (listeners : list nat) :
  Client.reachable s →
  dict_has (Client._services s) K = false →
  listeners ≠ [] →
  let r := Client.run (map (Client.CallService K) listeners
                       ++ map (Client.CallUnsubscribe K) listeners) s in
  dict_has (Client._services (fst r)) K = false ∧
  requests_named "unsubscribe" (snd r) = [].
Proof. apply ClientSubscriptions.service_unsubscribe_balanced. Qed.

Lemma service_calls_and_disposers_balance_witness :
  let s := fst (Client.run [Client.Emit "connect" []; Client.Ack 0 (JObj [])]
                           Client.fresh) in
  let r := Client.run (map (Client.CallService "lights") [1; 2]
                       ++ map (Client.CallUnsubscribe "lights") [1; 2]) s in
  dict_has (Client._services (fst r)) "lights" = false ∧
  requests_named "unsubscribe" (snd r) = [].
Proof.
  intros s.
  apply (service_calls_and_disposers_balance s "lights" [1; 2]).
  - subst s. cbn [Client.run fst].
    do 2 apply Client.reachable_step.
    by apply (Client.reachable_new "wss://host" "token123").
  - reflexivity.
  - discriminate.
Defined.

(** Under a name that [Object.prototype] defines, [subscribe] finds the
    name [in] the registry and neither sends nor queues anything. *)
Example legacy_subscribe_of_inherited_name :
  Legacy.run [Legacy.CallSubscribe "toString" 1; Legacy.Emit "connect" [];
              Legacy.Packet "authenticated" []] Legacy.fresh =
  (Legacy.set_connected true Legacy.fresh,
   [SocketOn "toString" (Listener 1);
    SocketEmit "authenticate" (JObj [("token", JStr "token123")]) None;
    BusEmit "connect" []; BusEmit "authenticated" []]).
Proof. reflexivity. Qed.

(** * Further properties of the older build *)

Module LegacyMore.
Import Legacy LegacyNotions.

Lemma subscribe_eq K listener l :
  subscribe K listener l =
  if dict_in (_subscriptions l) K then
    (Return tt, l, [SocketOn K (Listener listener)])
  else if socket_connected l then
    (Return tt, set_subscriptions (dict_set (_subscriptions l) K (Num 1)) l,
     [SocketOn K (Listener listener);
      SocketEmit "subscribe" (JObj [("event", JStr K)]) None])
  else
    (Return tt, set_subscribeTo (_subscribeTo l ++ [K]) l,
     [SocketOn K (Listener listener)]).
Proof.
  unfold subscribe. unfold bind, perform, this, when, assign, ret.
  destruct l as [tok conn subs q uq]. simpl.
  destruct (dict_in subs K); simpl; [done|]. by destruct conn.
Qed.

Lemma disposer_eq K listener l :
  disposer K listener l =
  if socket_connected l then
    let count := decrement (dict_get (_subscriptions l) K) in
    let o := if dict_has (_subscriptions l) K || negb (String.eqb K "__proto__")
             then dict_set (_subscriptions l) K count else _subscriptions l in
    if is_zero count then
      (Return tt, set_subscriptions (dict_delete o K) l,
       [SocketRemoveListener K (Listener listener);
        SocketEmit "unsubscribe" (JObj [("event", JStr K)]) None])
    else
      (Return tt, set_subscriptions o l,
       [SocketRemoveListener K (Listener listener)])
  else
    (Return tt, set_unsubscribeFrom (_unsubscribeFrom l ++ [K]) l,
     [SocketRemoveListener K (Listener listener)]).
Proof.
  unfold disposer. unfold bind, perform, this, when, assign, ret.
  destruct l as [tok conn subs q uq]. simpl.
  destruct conn; simpl; [|done].
  destruct (dict_has subs K || negb (String.eqb K "__proto__")); simpl;
    by destruct (is_zero _).
Qed.

(** The handlers of the socket events leave the registry alone. *)
Lemma handlers_subscriptions event args l :
  _subscriptions (state_of (_setupSocketHandlers event args l)) = _subscriptions l.
Proof.
  unfold _setupSocketHandlers.
  destruct (String.eqb event "*").
  { destruct (negb _); [|done]. by destruct (arg0 args). }
  destruct (String.eqb event "connect"); [done|].
  destruct (String.eqb event "authenticated").
  { rewrite LegacyFacts.authenticated_handler_eq. by destruct l. }
  destruct (String.eqb event "disconnect"); [done|].
  destruct (String.eqb event "reconnect_attempt"); [done|].
  destruct (String.eqb event "connect_error"); [done|].
  destruct (String.eqb event "connect_timeout"); [done|].
  destruct (String.eqb event "unauthorized").
  { by destruct (nullish (arg0 args)). }
  by destruct (String.eqb event "reconnect_failed").
Qed.

Lemma step_one_or_NaN i l :
  Forall one_or_NaN (_subscriptions l) →
  Forall one_or_NaN (_subscriptions (state_of (step i l))).
Proof.
  intros H. destruct i as [event args|event args|K listener|K listener];
    cbn [step].
  - unfold bind.
    destruct (String.eqb event "connect"); [|destruct (String.eqb event "disconnect")];
      unfold assign, ret; cbn iota beta;
      match goal with
      | |- context [_setupSocketHandlers event args ?l0] =>
          pose proof (handlers_subscriptions event args l0) as Hh;
          destruct (_setupSocketHandlers event args l0) as [[o s1] effs]
      end; unfold state_of in *; cbn [fst snd] in *; rewrite Hh; by destruct l.
  - unfold onevent, bind.
    pose proof (handlers_subscriptions event args l) as Hh.
    destruct (_setupSocketHandlers event args l) as [[[[]|e] s1] effs];
      unfold state_of in *; cbn [fst snd] in *; [|by rewrite Hh].
    pose proof (handlers_subscriptions "*" (JStr event :: args) s1) as Hw.
    destruct (_setupSocketHandlers "*" (JStr event :: args) s1) as [[o s2] effs2].
    unfold state_of in *; cbn [fst snd] in *. by rewrite Hw, Hh.
  - rewrite subscribe_eq.
    destruct (dict_in _ K); [done|].
    destruct (socket_connected l); [|by destruct l].
    destruct l; simpl in *.
    apply (dict_set_Forall (λ n, n = Num 1 ∨ n = NaN)); [by left | done].
  - rewrite disposer_eq. cbv zeta.
    destruct (socket_connected l); [|by destruct l].
    destruct (dict_has (_subscriptions l) K || negb (String.eqb K "__proto__"));
      destruct (is_zero _) eqn:Hz.
    + destruct l; simpl in *.
      by apply (dict_delete_set_Forall (λ n, n = Num 1 ∨ n = NaN)).
    + destruct l; simpl in *.
      apply (dict_set_Forall (λ n, n = Num 1 ∨ n = NaN)); [|done].
      destruct (dict_get _subscriptions0 K) as [n|] eqn:Hget; [|by right].
      destruct (dict_get_Forall (λ n, n = Num 1 ∨ n = NaN) _ _ _ H Hget)
        as [-> | ->]; [discriminate | by right].
    + destruct l; simpl in *.
      by apply (dict_delete_Forall (λ n, n = Num 1 ∨ n = NaN)).
    + by destruct l.
Qed.

End LegacyMore.

Module LegacyRuns.
Import Legacy LegacyNotions.

Lemma timeout_match {A} (s : string) (a b : A) :
  s ≠ "TIMEOUT" → match s with "TIMEOUT" => a | _ => b end = b.
Proof.
  intros Hne.
  do 7 (destruct s as [|[[] [] [] [] [] [] [] []] s]; try reflexivity).
  destruct s; [congruence | reflexivity].
Qed.

(** Calls made while the socket is not connected only lengthen the
    queues. *)
Lemma offline_run inputs l :
  socket_connected l = false →
  Forall api_call inputs →
  requests (snd (run inputs l)) = [] ∧
  fst (run inputs l) =
  set_unsubscribeFrom (_unsubscribeFrom l ++ queued_unsubscribes inputs)
    (set_subscribeTo (_subscribeTo l ++ queued_subscribes l inputs) l).
Proof.
  revert l. induction inputs as [|i inputs IH]; intros l Hc Hall.
  - simpl. rewrite !app_nil_r. by destruct l.
  - inversion Hall as [|? ? Hi Hrest]; subst.
    destruct i as [| |K listener|K listener]; try done; cbn [run step fst snd].
    + rewrite LegacyMore.subscribe_eq.
      destruct (dict_in (_subscriptions l) K) eqn:Hhas.
      * unfold state_of, effects_of; cbn [fst snd].
        destruct (IH l Hc Hrest) as [IH1 IH2].
        rewrite requests_app, IH1, IH2. split; [done|].
        cbn [queued_subscribes flat_map]. rewrite Hhas. done.
      * rewrite Hc. unfold state_of, effects_of; cbn [fst snd].
        destruct (IH (set_subscribeTo (_subscribeTo l ++ [K]) l)) as [IH1 IH2];
          [by destruct l | done |].
        rewrite requests_app, IH1, IH2. split; [done|].
        cbn [queued_subscribes flat_map]. rewrite Hhas.
        destruct l; simpl. unfold queued_subscribes. simpl.
        by rewrite <- !app_assoc.
    + rewrite LegacyMore.disposer_eq, Hc.
      unfold state_of, effects_of; cbn [fst snd].
      destruct (IH (set_unsubscribeFrom (_unsubscribeFrom l ++ [K]) l))
        as [IH1 IH2]; [by destruct l | done |].
      rewrite requests_app, IH1, IH2. split; [done|].
      destruct l; simpl. unfold queued_subscribes. simpl.
      by rewrite <- !app_assoc.
Qed.

(** The transport connects and the server sends [authenticated]. *)
Lemma online_run l :
  run [Emit "connect" []; Packet "authenticated" []] l =
  (set_unsubscribeFrom [] (set_subscribeTo [] (set_connected true l)),
   SocketEmit "authenticate" (JObj [("token", JStr (authToken l))]) None
   :: map (λ event, SocketEmit "subscribe" (JObj [("event", JStr event)]) None)
        (_subscribeTo l)
   ++ map (λ event, SocketEmit "unsubscribe" (JObj [("event", JStr event)]) None)
        (_unsubscribeFrom l)
   ++ [BusEmit "connect" []; BusEmit "authenticated" []]).
Proof.
  cbn [run].
  change (step (Emit "connect" []) l)
    with (Return tt, set_connected true l,
          [SocketEmit "authenticate" (JObj [("token", JStr (authToken l))]) None]).
  unfold state_of, effects_of; cbn [fst snd].
  cbn [step]. unfold onevent, bind.
  change (_setupSocketHandlers "authenticated" [] (set_connected true l))
    with (authenticated_handler (set_connected true l)).
  rewrite LegacyFacts.authenticated_handler_eq.
  rewrite LegacyFacts.legacy_wildcard_handler.
  destruct l; simpl. by rewrite <- !app_assoc, app_nil_r.
Qed.

Lemma requests_subscribes keys :
  requests (map (λ event, SocketEmit "subscribe" (JObj [("event", JStr event)]) None)
                keys) = subscribe_requests keys.
Proof. induction keys as [|k keys IH]; simpl; [done | by rewrite IH]. Qed.

Lemma requests_unsubscribes keys :
  requests (map (λ event, SocketEmit "unsubscribe" (JObj [("event", JStr event)]) None)
                keys) = unsubscribe_requests keys.
Proof. induction keys as [|k keys IH]; simpl; [done | by rewrite IH]. Qed.

(** Calls of [subscribe] on a key that is [in] the registry do nothing
    but put the listener on the socket. *)
Lemma subscribes_present K listeners l :
  dict_in (_subscriptions l) K = true →
  fst (run (map (CallSubscribe K) listeners) l) = l ∧
  requests (snd (run (map (CallSubscribe K) listeners) l)) = [].
Proof.
  intros Hhas. induction listeners as [|x listeners [IH1 IH2]]; [done|].
  cbn [map run step fst snd]. rewrite LegacyMore.subscribe_eq, Hhas.
  unfold state_of, effects_of; cbn [fst snd]. by rewrite IH1, requests_app, IH2.
Qed.

Lemma legacy_run_app a b l :
  run (a ++ b) l =
  (fst (run b (fst (run a l))), snd (run a l) ++ snd (run b (fst (run a l)))).
Proof.
  revert l. induction a as [|i a IH]; intros l; simpl.
  - by destruct (run b l).
  - rewrite IH. simpl. by rewrite app_assoc.
Qed.

End LegacyRuns.

(** While its socket is not connected the older build sends nothing and
    leaves its registry alone: a [subscribe] for a key that is not [in]
    the registry and every disposer only queue their key.  When the transport
    connects and the server sends [authenticated], the [authenticate]
    request is followed by a [subscribe] for every queued key and then an
    [unsubscribe] for every disposed key, each queue in the order of the
    calls, older entries first; both queues are empty afterwards, and the
    keys subscribed this way are still missing from the registry. *)
Theorem legacy_offline_calls_are_queued
  (l : Legacy.client) (inputs : list Legacy.input) :
  Legacy.socket_connected l = false →
  Forall LegacyNotions.api_call inputs →
  let offline := Legacy.run inputs l in
  let online := Legacy.run [Legacy.Emit "connect" [];
                            Legacy.Packet "authenticated" []] (fst offline) in
  requests (snd offline) = [] ∧
  Legacy._subscriptions (fst offline) = Legacy._subscriptions l ∧
  requests (snd online) =
    ("authenticate", JObj [("token", JStr (Legacy.authToken l))])
    :: LegacyNotions.subscribe_requests
         (Legacy._subscribeTo l ++ LegacyNotions.queued_subscribes l inputs)
    ++ LegacyNotions.unsubscribe_requests
         (Legacy._unsubscribeFrom l ++ LegacyNotions.queued_unsubscribes inputs) ∧
  Legacy._subscribeTo (fst online) = [] ∧
  Legacy._unsubscribeFrom (fst online) = [] ∧
  Legacy._subscriptions (fst online) = Legacy._subscriptions l.
Proof.
  intros Hc Hall offline online.
  destruct (LegacyRuns.offline_run inputs l Hc Hall) as [Hreq Hstate].
  fold offline in Hreq, Hstate.
  subst online. rewrite LegacyRuns.online_run, Hstate. cbn [fst snd].
  split_and!; try by destruct l.
  cbn [requests]. rewrite !requests_app.
  rewrite LegacyRuns.requests_subscribes, LegacyRuns.requests_unsubscribes.
  destruct l; simpl. by rewrite app_nil_r.
Qed.

Lemma legacy_offline_calls_are_queued_witness :
  requests (snd (Legacy.run [Legacy.Emit "connect" []; Legacy.Packet "authenticated" []]
                   (fst (Legacy.run [Legacy.CallSubscribe "a" 1;
                                     Legacy.CallSubscribe "b" 2;
                                     Legacy.CallDisposer "a" 1] Legacy.fresh)))) =
  [("authenticate", JObj [("token", JStr "token123")]);
   ("subscribe", JObj [("event", JStr "a")]);
   ("subscribe", JObj [("event", JStr "b")]);
   ("unsubscribe", JObj [("event", JStr "a")])].
Proof.
  apply (legacy_offline_calls_are_queued Legacy.fresh
           [Legacy.CallSubscribe "a" 1; Legacy.CallSubscribe "b" 2;
            Legacy.CallDisposer "a" 1]).
  - reflexivity.
  - by repeat constructor.
Defined.

(** The registry of the older build counts one listener per key at most:
    on a constructed instance every count is 1 or NaN. *)
Theorem legacy_registry_counts_one_listener (l : Legacy.client) :
  LegacyNotions.reachable l →
  Forall LegacyNotions.one_or_NaN (Legacy._subscriptions l).
Proof.
  induction 1 as [url token l Hnew | l i Hl IH].
  - unfold Legacy.constructor in Hnew.
    destruct url; [discriminate|]. destruct token; [discriminate|].
    injection Hnew as <-. constructor.
  - by apply LegacyMore.step_one_or_NaN.
Qed.

Lemma legacy_registry_counts_one_listener_witness :
  Forall LegacyNotions.one_or_NaN
    (Legacy._subscriptions
       (state_of (Legacy.step (Legacy.CallSubscribe "a" 1)
                    (state_of (Legacy.step (Legacy.Emit "connect" []) Legacy.fresh))))).
Proof.
  apply legacy_registry_counts_one_listener.
  do 2 apply LegacyNotions.reachable_step.
  by apply (LegacyNotions.reachable_new "wss://host" "token123").
Defined.

(** On a connected socket of the older build any number of [subscribe]
    calls on a key that is not [in] the registry (no entry of its own, and
    no name that [Object.prototype] defines) sends one [subscribe]
    request, and the first disposer already sends [unsubscribe] and
    removes the key, however many listeners are left; the registry is then
    as it was before the calls. *)
Theorem legacy_first_disposer_unsubscribes
  (l : Legacy.client) (K : string) (listeners : list nat) (d : nat) :
  Legacy.socket_connected l = true →
  dict_in (Legacy._subscriptions l) K = false →
  listeners ≠ [] →
  let r := Legacy.run (map (Legacy.CallSubscribe K) listeners
                       ++ [Legacy.CallDisposer K d]) l in
  requests (snd r) =
    [("subscribe", JObj [("event", JStr K)]);
     ("unsubscribe", JObj [("event", JStr K)])] ∧
  fst r = l.
Proof.
  intros Hc Hin Hne r. subst r.
  destruct listeners as [|x listeners]; [done|].
  pose proof (proj1 (proj1 (dict_in_false _ _) Hin)) as Hhas.
  set (l1 := Legacy.set_subscriptions
               (dict_set (Legacy._subscriptions l) K (Legacy.Num 1)) l).
  assert (Hsubs : fst (Legacy.run (map (Legacy.CallSubscribe K) (x :: listeners)) l) = l1
                  ∧ requests (snd (Legacy.run (map (Legacy.CallSubscribe K)
                                                 (x :: listeners)) l))
                    = [("subscribe", JObj [("event", JStr K)])]).
  { cbn [map Legacy.run Legacy.step fst snd].
    rewrite LegacyMore.subscribe_eq, Hin, Hc.
    unfold state_of, effects_of; cbn [fst snd]. fold l1.
    destruct (LegacyRuns.subscribes_present K listeners l1) as [Hst Hreq].
    { subst l1. destruct l; simpl. apply dict_in_own.
      unfold dict_has. by rewrite dict_get_set_eq. }
    by rewrite Hst, requests_app, Hreq. }
  destruct Hsubs as [Hst Hreq].
  assert (Hdisp : Legacy.step (Legacy.CallDisposer K d) l1 =
                  (Return tt, l,
                   [SocketRemoveListener K (Listener d);
                    SocketEmit "unsubscribe" (JObj [("event", JStr K)]) None])).
  { cbn [Legacy.step]. rewrite LegacyMore.disposer_eq.
    assert (Hget : dict_get (Legacy._subscriptions l1) K = Some (Legacy.Num 1)).
    { subst l1. destruct l; simpl. apply dict_get_set_eq. }
    assert (Hc1 : Legacy.socket_connected l1 = true) by (subst l1; by destruct l).
    assert (Hhas1 : dict_has (Legacy._subscriptions l1) K = true)
      by (unfold dict_has; by rewrite Hget).
    rewrite Hc1. cbv zeta. rewrite Hget, Hhas1.
    cbn [Legacy.decrement Legacy.is_zero orb].
    change (1 - 1 =? 0)%Z with true. cbv iota.
    f_equal. f_equal. clear Hst Hreq Hget Hc1 Hhas1 Hin. subst l1.
    destruct l; cbn [Legacy._subscriptions] in Hhas.
    unfold Legacy.set_subscriptions; cbn.
    by rewrite dict_delete_set_new. }
  rewrite LegacyRuns.legacy_run_app, Hst. cbn [fst snd Legacy.run].
  rewrite Hdisp. unfold state_of, effects_of; cbn [fst snd].
  by rewrite requests_app, Hreq.
Qed.

Lemma legacy_first_disposer_unsubscribes_witness :
  let l := state_of (Legacy.step (Legacy.Emit "connect" []) Legacy.fresh) in
  requests (snd (Legacy.run (map (Legacy.CallSubscribe "a") [1; 2; 3]
                             ++ [Legacy.CallDisposer "a" 1]) l)) =
  [("subscribe", JObj [("event", JStr "a")]);
   ("unsubscribe", JObj [("event", JStr "a")])].
Proof.
  intros l.
  apply (legacy_first_disposer_unsubscribes l "a" [1; 2; 3] 1);
    [reflexivity | reflexivity | discriminate].
Defined.

(** The [unauthorized] handler of the older build emits one [error]
    event whose kind is AUTH_TIMEOUT when the [type] of the server's error
    is the string TIMEOUT and AUTH_INVALID_TOKEN for every other error, and
    hands the error on as the detail; the packet is republished as
    [unauthorized], and the instance is unchanged. *)
Theorem legacy_unauthorized_kinds (l : Legacy.client) (err : jsval) :
  nullish err = false →
  let r := Legacy.step (Legacy.Packet "unauthorized" [err]) l in
  state_of r = l ∧
  (field err "type" = JStr "TIMEOUT" →
   bus_events (effects_of r) =
     [("error", [Legacy.SOCKET_ERROR_value Legacy.AUTH_TIMEOUT; err]);
      ("unauthorized", [err])]) ∧
  (field err "type" ≠ JStr "TIMEOUT" →
   bus_events (effects_of r) =
     [("error", [Legacy.SOCKET_ERROR_value Legacy.AUTH_INVALID_TOKEN; err]);
      ("unauthorized", [err])]).
Proof.
  intros Hn r.
  assert (Hr : r = (Return tt, l,
    [BusEmit "error"
       [Legacy.SOCKET_ERROR_value
          match field err "type" with
          | JStr "TIMEOUT" => Legacy.AUTH_TIMEOUT
          | _ => Legacy.AUTH_INVALID_TOKEN
          end; err];
     BusEmit "unauthorized" [err]])).
  { assert (Hh : Legacy._setupSocketHandlers "unauthorized" [err] l =
                  (Return tt, l,
                   [BusEmit "error"
                      [Legacy.SOCKET_ERROR_value
                         match field err "type" with
                         | JStr "TIMEOUT" => Legacy.AUTH_TIMEOUT
                         | _ => Legacy.AUTH_INVALID_TOKEN
                         end; err]])).
    { unfold Legacy._setupSocketHandlers. simpl. by rewrite Hn. }
    subst r. cbn [Legacy.step]. unfold Legacy.onevent, bind.
    rewrite Hh. by rewrite LegacyFacts.legacy_wildcard_handler. }
  rewrite Hr. split_and!; [done | |].
  - by intros ->.
  - intros Hne. unfold effects_of; cbn [snd bus_events].
    destruct (field err "type") as [| | | |s| |]; try done.
    rewrite LegacyRuns.timeout_match; [done | congruence].
Qed.

Lemma legacy_unauthorized_kinds_witness :
  bus_events (effects_of (Legacy.step
    (Legacy.Packet "unauthorized" [JObj [("type", JStr "TIMEOUT")]]) Legacy.fresh)) =
  [("error", [JStr "AUTH_TIMEOUT"; JObj [("type", JStr "TIMEOUT")]]);
   ("unauthorized", [JObj [("type", JStr "TIMEOUT")]])].
Proof.
  apply (legacy_unauthorized_kinds Legacy.fresh (JObj [("type", JStr "TIMEOUT")]));
    reflexivity.
Defined.

(** * Names that [Object.prototype] defines *)

Module InheritedNames.
Import Client.



End InheritedNames.



(** A state pushed for a name that [Object.prototype] defines is taken
    for the state of a subscribed service, whatever the registry holds:
    it is stored in the cache under the name and emitted as
    [sync:<name>].  ([__proto__], whose assignment sets the prototype of
    the cache instead of a property, is left aside.) *)
Theorem push_for_inherited_name_is_cached
  (s : Client.client) (payload : jsval) (K : string) :
  field payload "service" = JStr K →
  inherited K = true →
  K ≠ "__proto__" →
  let state := field payload "state" in
  let r := Client.step (Client.Packet "sync" [payload]) s in
  Client._stateCache (state_of r) !! K = Some state ∧
  bus_events (effects_of r) =
    [("sync:" +:+ K, [state]); ("internal:sync", [payload])] ∧
  Client._services (state_of r) = Client._services s ∧
  Client.view_state (state_of r) K = (if truthy state then state else JNull).
Proof.
  intros Hname Hi _ state r.
  assert (Hn : nullish payload = false) by (by destruct payload).
  assert (Hr : r = (Return tt,
                    Client.set_stateCache (<[K := state]> (Client._stateCache s)) s,
                    effects_of r)
               ∧ bus_events (effects_of r) =
                 [("sync:" +:+ K, [state]); ("internal:sync", [payload])]).
  { subst r. cbn [Client.step]. unfold Client.onevent, bind.
    change (Client._setupSocketHandlers "sync" [payload] s)
      with (Client.sync_handler payload s).
    rewrite ClientSteps.sync_handler_subscribed;
      [|done|rewrite Hname; unfold dict_in; cbn [ToString]; by rewrite Hi, orb_true_r].
    rewrite ClientFacts.wildcard_handler. by rewrite Hname. }
  destruct Hr as [Hr Hbus]. rewrite Hr. unfold state_of; cbn [fst snd].
  split_and!; [|done| |].
  - destruct s; simpl. apply lookup_insert_eq.
  - by destruct s.
  - unfold Client.view_state, Client.cached.
    destruct s; simpl. by rewrite lookup_insert_eq.
Qed.

Lemma push_for_inherited_name_is_cached_witness :
  let payload := JObj [("service", JStr "valueOf"); ("state", JNum 3)] in
  Client._stateCache
    (state_of (Client.step (Client.Packet "sync" [payload]) Client.fresh))
  !! "valueOf" = Some (JNum 3).
Proof.
  intros payload.
  apply (push_for_inherited_name_is_cached Client.fresh payload "valueOf");
    [reflexivity | reflexivity | discriminate].
Defined.

(** * The order of the registry *)

Section EnumerationOrder.
Context {V : Type}.
Implicit Types (o : list (string * V)) (k : string) (v : V).

Lemma enumerated_before_irrefl k : enumerated_before k k = false.
Proof.
  unfold enumerated_before. destruct (array_index k); [apply N.ltb_irrefl | done].
Qed.






End EnumerationOrder.

Module ClientOrder.
Import Client.






End ClientOrder.


